(** * ely-tools: directory size report, batch exec and pack commands

    A shallow embedding of the TypeScript sources [get-directory-sizes.ts],
    [commands/exec-command.ts] and [commands/pack-command.ts], and the
    properties of the traversal, the ranking and the dispatch loop.

    Conventions of the embedding.
    - A JavaScript [number] holding a byte count, a depth or a counter is
      the [Z] it is equal to. Byte counts are added as doubles are
      ([jsAdd]): exactly below 2^53 and rounded to the nearest double from
      there on. Depths and counters stay far below 2^53.
    - A string is a string of bytes; a path is the string the source builds
      with [path.join] from a directory that does not end with a separator
      and the name of an entry.
    - The file system a scan reads is a finite tree ([node]); what the
      commands run by [execSync] do to the machine is an arbitrary function
      on an abstract state ([World]).
    - [console.log], [console.warn] and [console.error] append a [Line] to the
      console output, which every effectful function returns next to its
      value.
    - A JavaScript exception is the [Throw] case of [Res], with its message;
      [try]/[catch] is [tryCatch]. *)

From Stdlib Require Import ZArith List String Ascii Bool Lia.
From Stdlib Require Import Permutation Sorted.
From Stdlib Require Import DecimalString.
Import ListNotations.
Local Open Scope string_scope.
Local Open Scope Z_scope.

(** ** Console and exceptions *)

Inductive Line : Type :=
| Log (s : string)
| Warn (s : string)
| Error (s : string).

Inductive Res (A : Type) : Type :=
| Ok (a : A)
| Throw (message : string).
Arguments Ok {A} a.
Arguments Throw {A} message.

(** A computation that may throw and that writes to the console. *)
Definition M (A : Type) : Type := (Res A * list Line)%type.

Definition ret {A} (a : A) : M A := (Ok a, []).
Definition throw {A} (message : string) : M A := (Throw message, []).
Definition console (l : Line) : M unit := (Ok tt, [l]).

Definition bind {A B} (m : M A) (f : A -> M B) : M B :=
  match m with
  | (Ok a, out) => let (r, out') := f a in (r, (out ++ out')%list)
  | (Throw e, out) => (Throw e, out)
  end.

Definition tryCatch {A} (m : M A) (handler : string -> M A) : M A :=
  match m with
  | (Ok a, out) => (Ok a, out)
  | (Throw e, out) => let (r, out') := handler e in (r, (out ++ out')%list)
  end.

Declare Scope js_scope.
Delimit Scope js_scope with js.
Notation "x <- m ;; k" := (bind m (fun x => k))
  (at level 61, m at next level, right associativity) : js_scope.
Notation "m ;;; k" := (bind m (fun _ => k))
  (at level 61, right associativity) : js_scope.
Local Open Scope js_scope.

(** A function that catches all its exceptions returns its value and its
    console output. *)
Definition emitting {A} (r : A * list Line) : M A := (Ok (fst r), snd r).

(** Computations that also act on the state [W] of the machine. *)
Definition IO (W A : Type) : Type := W -> M A * W.

Definition io_ret {W A} (a : A) : IO W A := fun w => (ret a, w).
Definition lift {W A} (m : M A) : IO W A := fun w => (m, w).

Definition io_bind {W A B} (m : IO W A) (f : A -> IO W B) : IO W B :=
  fun w =>
    match m w with
    | ((Ok a, out), w') =>
        let '((r, out'), w'') := f a w' in ((r, (out ++ out')%list), w'')
    | ((Throw e, out), w') => ((Throw e, out), w')
    end.

Definition io_tryCatch {W A} (m : IO W A) (handler : string -> IO W A) : IO W A :=
  fun w =>
    match m w with
    | ((Ok a, out), w') => ((Ok a, out), w')
    | ((Throw e, out), w') =>
        let '((r, out'), w'') := handler e w' in ((r, (out ++ out')%list), w'')
    end.

Declare Scope io_scope.
Delimit Scope io_scope with io.
Notation "x <- m ;; k" := (io_bind m (fun x => k))
  (at level 61, m at next level, right associativity) : io_scope.
Notation "m ;;; k" := (io_bind m (fun _ => k))
  (at level 61, right associativity) : io_scope.

(** The console output [out] ends with the lines [tail]. *)
Definition endsWithLines (out tail : list Line) : Prop :=
  exists before, out = (before ++ tail)%list.

(** A default of a destructuring pattern: [{ x = d } = options]. *)
Definition orDefault {A} (o : option A) (d : A) : A :=
  match o with Some a => a | None => d end.

(** [for (const item of items) body], where [body] updates the loop's
    variables [S]. When [body] throws, the loop stops and the variables keep
    the values they had before that iteration's update. *)
Fixpoint forOf {A S} (body : A -> S -> M S) (items : list A) (s : S)
  : S * M unit :=
  match items with
  | [] => (s, ret tt)
  | item :: rest =>
      match body item s with
      | (Ok s', out) =>
          let '(s'', (r, out')) := forOf body rest s' in (s'', (r, (out ++ out')%list))
      | (Throw e, out) => (s, (Throw e, out))
      end
  end.

(** ** The file system seen by a scan *)

(** What [fs.statSync] and [fs.readdirSync] answer for an entry. The listing
    of a directory keeps the order [readdirSync] returns. *)
#[warnings="-register-all"]
Inductive node : Type :=
| File (size : Z)
| Dir (items : list (string * node))
| DirUnreadable (message : string)   (* a directory; readdirSync throws *)
| StatFails (message : string).      (* statSync throws *)

(** [path.join(dir, item)] for a directory whose path ends with no
    separator, as [path.resolve] returns it for every directory but the
    root directory, and the name of one of its entries: there is nothing to
    normalise. *)
Definition path_join (dir item : string) : string := dir ++ "/" ++ item.

(** [fs.statSync(p).isDirectory()] *)
Definition isDirectory (stats : node) : M bool :=
  match stats with
  | StatFails message => throw message
  | File _ => ret false
  | Dir _ | DirUnreadable _ => ret true
  end.

(** The host a command runs on: [lookup] is what the [directory] argument
    names on disk, if anything, [resolve] is [path.resolve], and [now k] is
    what the [k]-th call of [Date.now()] returns. *)
Record Host : Type := {
  lookup : string -> option node;
  resolve : string -> string;
  now : nat -> Z
}.

(** [fs.existsSync]: false as well when the entry cannot be stat'ed. *)
Definition exists_node (target : option node) : bool :=
  match target with
  | None | Some (StatFails _) => false
  | Some _ => true
  end.

(** [fs.statSync] on the [directory] argument. *)
Definition stat_target (target : option node) : M node :=
  match target with
  | None => throw "ENOENT: no such file or directory"
  | Some (StatFails message) => throw message
  | Some stats => ret stats
  end.

(** ** Numbers *)

(** The double nearest to an integer, the one with the even mantissa on a
    tie. An integer of a magnitude below 2^53 is a double; a larger one is
    rounded to a multiple of the power of two that leaves 53 bits. *)
Definition roundDouble (z : Z) : Z :=
  let a := Z.abs z in
  if a <? 2 ^ 53 then z
  else
    let ulp := 2 ^ (Z.log2 a - 52) in
    let q := a / ulp in
    let r := a mod ulp in
    let q' := if 2 * r <? ulp then q
              else if ulp <? 2 * r then q + 1
              else if Z.even q then q else q + 1 in
    Z.sgn z * (q' * ulp).

(** [a + b] on two integers that are doubles, their sum being far below the
    largest double. *)
Definition jsAdd (a b : Z) : Z := roundDouble (a + b).

(** ** Strings of numbers *)

Definition nl : string := String "010"%char "".
Definition dquote : string := String "034"%char "".

Definition string_of_Z (z : Z) : string := NilZero.string_of_int (Z.to_int z).

Fixpoint repeat_string (s : string) (n : nat) : string :=
  match n with
  | O => ""
  | S n' => s ++ repeat_string s n'
  end.

(** [s.padStart(width)] *)
Definition padStart (width : nat) (s : string) : string :=
  repeat_string " " (width - String.length s) ++ s.

(** [s.trim()] on a string of bytes: the white space and line terminators
    of the ASCII range are stripped at both ends. The white space outside
    that range, which the source strips as well, is kept. *)
Definition isWhiteSpace (c : ascii) : bool :=
  let n := nat_of_ascii c in
  ((9 <=? n) && (n <=? 13))%nat || (n =? 32)%nat.

Fixpoint trimStart (s : string) : string :=
  match s with
  | String c s' => if isWhiteSpace c then trimStart s' else s
  | EmptyString => EmptyString
  end.

Fixpoint trimEnd (s : string) : string :=
  match s with
  | String c s' =>
      match trimEnd s' with
      | EmptyString => if isWhiteSpace c then EmptyString else String c EmptyString
      | t => String c t
      end
  | EmptyString => EmptyString
  end.

Definition trim (s : string) : string := trimEnd (trimStart s).

(** [s.split(separator)] for a separator of one character *)
Fixpoint split (separator : ascii) (s : string) : list string :=
  match s with
  | EmptyString => [EmptyString]
  | String c s' =>
      if Ascii.eqb c separator then EmptyString :: split separator s'
      else match split separator s' with
           | part :: parts => String c part :: parts
           | [] => [String c EmptyString]
           end
  end.

(** [output.split('\n').map(line => `   ${line}`).join('\n')] *)
Definition indentOutput (output : string) : string :=
  String.concat nl (map (fun line => "   " ++ line) (split "010"%char output)).

(** [path.relative(from, to)] for a [to] that [path.join] built below
    [from]. *)
Definition path_relative (from to : string) : string :=
  let base := from ++ "/" in
  if String.prefix base to
  then String.substring (String.length base)
                        (String.length to - String.length base) to
  else to.

(** [s.endsWith(suffix)] *)
Definition endsWith (s suffix : string) : bool :=
  let n := String.length s in
  let m := String.length suffix in
  (m <=? n)%nat && String.eqb (String.substring (n - m) m s) suffix.

(** [l.includes(s)] *)
Definition includes (l : list string) (s : string) : bool :=
  existsb (String.eqb s) l.

(** ** Arrays *)

Section Arrays.
Context {A : Type}.

(** [Array.prototype.sort(compare)] is a stable sort (ECMAScript 2019):
    the elements come out ordered by [compare], and elements that compare
    equal keep their order. *)
Fixpoint Array_insert (compare : A -> A -> Z) (x : A) (l : list A) : list A :=
  match l with
  | [] => [x]
  | y :: l' =>
      if compare x y <=? 0 then x :: l else y :: Array_insert compare x l'
  end.

Definition Array_sort (compare : A -> A -> Z) (l : list A) : list A :=
  fold_right (Array_insert compare) [] l.

(** [a] may stand before [b] in an array sorted with [compare]. *)
Definition inOrder (compare : A -> A -> Z) (a b : A) : Prop :=
  compare a b <= 0.

(** [l.slice(0, finish)]: a negative [finish] counts from the end. *)
Definition Array_slice0 (finish : Z) (l : list A) : list A :=
  if finish <? 0
  then firstn (Z.to_nat (Z.max (Z.of_nat (List.length l) + finish) 0)) l
  else firstn (Z.to_nat finish) l.
End Arrays.

(** ** get-directory-sizes *)

Module DirectorySizes.

Definition sizes : list string := ["B"; "KB"; "MB"; "GB"; "TB"].

(** [parseFloat(x.toFixed(2))] printed, for [x = num / den] with
    [0 <= num] and [den] a power of two, so that [x] is exact: [toFixed]
    rounds to the nearest hundredth, the larger one on a tie, and
    [parseFloat] drops the trailing zeros. *)
Definition toFixed2 (num den : Z) : string :=
  let n := (200 * num + den) / (2 * den) in
  let q := n / 100 in
  let r := n mod 100 in
  if r =? 0 then string_of_Z q
  else if r mod 10 =? 0 then string_of_Z q ++ "." ++ string_of_Z (r / 10)
  else string_of_Z q ++ "." ++ string_of_Z (r / 10) ++ string_of_Z (r mod 10).

(** [Math.floor(Math.log(bytes) / Math.log(1024))] for [0 < bytes], with the
    quotient of the logarithms taken exactly: the position of the highest
    set bit, divided by ten. The source computes the quotient in double
    precision, which rounds up to the next integer a few bytes below a high
    power of 1024: at the three byte counts from 2^50 - 3 to 2^50 - 1 it
    gives 5 where the exact quotient gives 4. The properties below are
    stated up to 1023 * 1024^4 bytes and at powers of two. *)
Definition unitIndex (bytes : Z) : Z := Z.log2 bytes / 10.

Definition formatBytes (bytes : Z) : string :=
  if bytes =? 0 then "0 B"
  else if bytes <? 0 then "NaN undefined"       (* Math.log gives NaN *)
  else
    let k := 1024 in
    let i := unitIndex bytes in
    toFixed2 bytes (k ^ i) ++ " " ++ nth (Z.to_nat i) sizes "undefined".

Definition cannotReadDirectory (filePath message : string) : Line :=
  Warn ("Warning: Cannot read directory " ++ filePath ++ ": " ++ message).

(** [totalSize += getSize(itemPath)], the body of the loop of [getSize] *)
Definition addSize (getSize : string -> node -> M Z) (filePath : string)
    (entry : string * node) (totalSize : Z) : M Z :=
  let '(item, stats) := entry in
  let itemPath := path_join filePath item in
  size <- getSize itemPath stats ;;
  ret (jsAdd totalSize size).

(** [getSize(filePath)], where [stats] is what [filePath] names. The [try]
    block holds the listing and the whole loop. *)
Fixpoint getSize (filePath : string) (stats : node) {struct stats} : M Z :=
  match stats with
  | StatFails message => throw message
  | File size => ret size
  | DirUnreadable message =>
      tryCatch (throw message)
               (fun e => console (cannotReadDirectory filePath e)) ;;;
      ret 0
  | Dir items =>
      let '(totalSize, loop) := forOf (addSize getSize filePath) items 0 in
      tryCatch loop (fun e => console (cannotReadDirectory filePath e)) ;;;
      ret totalSize
  end.

Record DirectoryItem : Type := {
  name : string;
  path : string;
  relativePath : string;
  size : Z;
  depth : Z
}.

Definition reportLine (index : nat) (dir : DirectoryItem) : Line :=
  let rank := Z.of_nat index + 1 in
  let sizeStr := formatBytes (size dir) in
  let depthIndicator := repeat_string "  " (Z.to_nat (depth dir)) in
  Log (padStart 2 (string_of_Z rank) ++ ". " ++ depthIndicator ++ "📁 "
       ++ name dir ++ " (" ++ sizeStr ++ ")").

(** [l.forEach((x, index) => f index x)] on the console *)
Fixpoint forEachIndexed {A} (f : nat -> A -> Line) (index : nat) (l : list A)
  : list Line :=
  match l with
  | [] => []
  | x :: l' => f index x :: forEachIndexed f (S index) l'
  end.

(** [(a, b) => b.size - a.size]: the sort reads the sign of the difference
    only, and the sign of a difference of doubles is that of the exact
    difference. *)
Definition bySizeDescending (a b : DirectoryItem) : Z := size b - size a.

(** The root call's epilogue: sort, keep the top [topCount], print them. *)
Definition rankAndReport (topCount : Z) (directories : list DirectoryItem)
  : list DirectoryItem * list Line :=
  let sorted := Array_sort bySizeDescending directories in
  let topDirectories := Array_slice0 topCount sorted in
  (topDirectories,
   Log (nl ++ "📊 Top " ++ string_of_Z topCount ++ " directories by size:" ++ nl)
   :: forEachIndexed reportLine 0 topDirectories).

Definition errorReadingDirectory (dirPath message : string) : Line :=
  Error ("Error reading directory " ++ dirPath ++ ": " ++ message).

Definition cannotAccess (itemPath message : string) : Line :=
  Warn ("Warning: Cannot access " ++ itemPath ++ ": " ++ message).

(** The body of the loop of [listDirectoryContents]; [recurse] is the call
    on the subdirectory at [currentDepth + 1]. *)
Definition listItem
    (recurse : string -> node -> list DirectoryItem * list Line)
    (dirPath : string) (currentDepth : Z)
    (entry : string * node) (directories : list DirectoryItem)
  : M (list DirectoryItem) :=
  let '(item, stats) := entry in
  let itemPath := path_join dirPath item in
  tryCatch
    (isDir <- isDirectory stats ;;
     if isDir : bool then
       size <- getSize itemPath stats ;;
       let relativePath := path_relative dirPath itemPath in
       let pushed :=
         (directories ++
          [{| name := item; path := itemPath; relativePath := relativePath;
              size := size; depth := currentDepth |}])%list in
       subDirectories <- emitting (recurse itemPath stats) ;;
       ret (pushed ++ subDirectories)%list
     else ret directories)
    (fun e => console (cannotAccess itemPath e) ;;; ret directories).

(** [listDirectoryContents(dirPath, prefix, maxDepth, currentDepth, topCount)],
    where [dir] is what [dirPath] names. It catches every exception, so it
    returns its array and its console output. *)
Fixpoint listDirectoryContents (dirPath prefix : string) (dir : node)
    (maxDepth currentDepth topCount : Z) {struct dir}
  : list DirectoryItem * list Line :=
  if currentDepth >? maxDepth then ([], [])
  else
    let '(directories, attempt) :=
      match dir with
      | Dir items =>
          forOf (listItem
                   (fun itemPath stats =>
                      listDirectoryContents itemPath prefix stats maxDepth
                                            (currentDepth + 1) topCount)
                   dirPath currentDepth)
                items []
      | DirUnreadable message | StatFails message => ([], throw message)
      | File _ => ([], throw "ENOTDIR: not a directory")
      end in
    let '(_, out) :=
      tryCatch attempt (fun e => console (errorReadingDirectory dirPath e)) in
    if currentDepth =? 0 then
      let '(topDirectories, report) := rankAndReport topCount directories in
      (topDirectories, (out ++ report)%list)
    else (directories, out).

Record GetDirectorySizesOptions : Type := {
  directory : option string;
  maxDepth : option Z;
  topCount : option Z
}.

(** [directories.reduce((sum, dir) => sum + dir.size, 0)] *)
Definition totalSizeOf (directories : list DirectoryItem) : Z :=
  fold_left (fun sum dir => jsAdd sum (size dir)) directories 0.

Definition getDirectorySizes (host : Host) (options : GetDirectorySizesOptions)
  : M bool :=
  let directory := orDefault (directory options) "." in
  let maxDepth := orDefault (maxDepth options) 2 in
  let topCount := orDefault (topCount options) 10 in
  tryCatch
    (if negb (exists_node (lookup host directory)) then
       console (Error ("Error: Directory '" ++ directory ++ "' does not exist")) ;;;
       ret false
     else
       stats <- stat_target (lookup host directory) ;;
       isDir <- isDirectory stats ;;
       if negb isDir then
         console (Error ("Error: '" ++ directory ++ "' is not a directory")) ;;;
         ret false
       else
         let absolutePath := resolve host directory in
         console (Log ("📂 Scanning directory: " ++ absolutePath)) ;;;
         console (Log ("🔍 Max depth: " ++ string_of_Z maxDepth)) ;;;
         console (Log "") ;;;
         let startTime := now host 0 in
         directories <-
           emitting (listDirectoryContents absolutePath "" stats maxDepth 0
                                           topCount) ;;
         let endTime := now host 1 in
         let totalSize := totalSizeOf directories in
         console (Log ("📊 Total directory size: " ++ formatBytes totalSize)) ;;;
         console (Log "") ;;;
         console (Log ("⏱️  Scan completed in "
                       ++ string_of_Z (endTime - startTime) ++ "ms")) ;;;
         ret true)
    (fun e => console (Error ("Error: " ++ e)) ;;; ret false).

End DirectorySizes.

(** ** commands/exec-command *)

Module ExecCommand.

(** [fs.existsSync(p)] for a path [p] below the scanned directory: every
    entry of the tree is listed with the path [path.join] gives it. *)
Fixpoint entriesBelow (dirPath : string) (dir : node) {struct dir}
  : list (string * node) :=
  match dir with
  | Dir items =>
      flat_map (fun '(item, stats) =>
                  (path_join dirPath item, stats)
                  :: entriesBelow (path_join dirPath item) stats)
               items
  | _ => []
  end.

Definition existsSync (absolutePath : string) (root : node) (p : string) : bool :=
  existsb (fun '(q, stats) => String.eqb q p && exists_node (Some stats))
          (entriesBelow absolutePath root).

Definition hasPackageJson (absolutePath : string) (root : node)
    (dirPath : string) : bool :=
  existsSync absolutePath root (path_join dirPath "package.json").

Definition skipDirs : list string :=
  ["node_modules"; ".git"; ".next"; "dist"; "build"].

(** The body of the loop of [getSubdirectories]. *)
Definition subdirectoryItem
    (recurse : string -> node -> list string * list Line)
    (dirPath : string) (entry : string * node) (directories : list string)
  : M (list string) :=
  let '(item, stats) := entry in
  let itemPath := path_join dirPath item in
  tryCatch
    (isDir <- isDirectory stats ;;
     if isDir : bool then
       if negb (includes skipDirs item) then
         let pushed := (directories ++ [itemPath])%list in
         subDirs <- emitting (recurse itemPath stats) ;;
         ret (pushed ++ subDirs)%list
       else ret directories
     else ret directories)
    (fun _ => ret directories).

Fixpoint getSubdirectories (dirPath : string) (dir : node)
    (maxDepth currentDepth : Z) {struct dir} : list string * list Line :=
  if currentDepth >? maxDepth then ([], [])
  else
    let '(directories, attempt) :=
      match dir with
      | Dir items =>
          forOf (subdirectoryItem
                   (fun itemPath stats =>
                      getSubdirectories itemPath stats maxDepth
                                        (currentDepth + 1))
                   dirPath)
                items []
      | DirUnreadable message | StatFails message => ([], throw message)
      | File _ => ([], throw "ENOTDIR: not a directory")
      end in
    let '(_, out) :=
      tryCatch attempt
        (fun e => console (Warn ("Warning: Cannot read directory " ++ dirPath
                                 ++ ": " ++ e))) in
    (directories, out).

(** What [execSync] does: the command exits with status 0 and its standard
    output is returned, or an error is thrown whose [stdout] may be missing. *)
Inductive ExecOutcome : Type :=
| Exited (stdout : string)
| Failed (stdout : option string) (message : string).

Record ExecutionResult : Type := {
  success : bool;
  output : string;
  error : option string
}.

Record ExecCommandOptions : Type := {
  directory : option string;
  exec : string;
  maxDepth : option Z;
  packageName : option string
}.

Record Processed : Type := {
  processedDirectory : string;
  processedRelativePath : string;
  result : ExecutionResult
}.

(** A string in a condition: the empty string counts as false. *)
Definition truthy (s : option string) : bool :=
  match s with
  | Some s => negb (String.eqb s "")
  | None => false
  end.

Section Process.
(** The state of the machine the commands act on, and the synchronous
    [child_process.execSync(command, {cwd})]. *)
Variable World : Type.
Variable execSync : string -> string -> World -> ExecOutcome * World.

Local Open Scope io_scope.

Definition executeCommand (command dirPath : string)
  : IO World ExecutionResult :=
  fun w =>
    match execSync command dirPath w with
    | (Exited stdout, w') =>
        (ret {| success := true; output := trim stdout; error := None |}, w')
    | (Failed stdout message, w') =>
        let errorOutput := if truthy stdout then stdout else Some message in
        (ret {| success := false;
                output := match errorOutput with
                          | Some s => trim s
                          | None => ""
                          end;
                error := Some message |}, w')
    end.

(** The loop over [targetDirectories], which pushes onto [results]. *)
Fixpoint processEach (exec absolutePath : string)
    (targetDirectories : list string) (results : list Processed)
  : IO World (list Processed) :=
  match targetDirectories with
  | [] => io_ret results
  | dir :: rest =>
      let relativePath := path_relative absolutePath dir in
      lift (console (Log ("🔄 Processing: " ++ relativePath))) ;;;
      result <- executeCommand exec dir ;;
      processEach exec absolutePath rest
        (results ++ [{| processedDirectory := dir;
                        processedRelativePath := relativePath;
                        result := result |}])%list
  end.

Definition indented (output : string) : list Line :=
  if truthy (Some output) then [Log (indentOutput output)] else [].

(** The body of [results.forEach], with the two counters it updates. *)
Definition displayResult (p : Processed) (counts : Z * Z)
  : (Z * Z) * list Line :=
  let '(successCount, failureCount) := counts in
  let relativePath := processedRelativePath p in
  if success (result p) then
    ((successCount + 1, failureCount),
     ([Log ("✅ " ++ relativePath)] ++ indented (output (result p))
      ++ [Log ""])%list)
  else
    ((successCount, failureCount + 1),
     ([Log ("❌ " ++ relativePath)]
      ++ (if truthy (error (result p))
          then [Log ("   Error: " ++ orDefault (error (result p)) "")]
          else [])
      ++ indented (output (result p))
      ++ [Log ""])%list).

Fixpoint displayResults (results : list Processed) (counts : Z * Z)
  : (Z * Z) * list Line :=
  match results with
  | [] => (counts, [])
  | p :: rest =>
      let '(counts', out) := displayResult p counts in
      let '(counts'', out') := displayResults rest counts' in
      (counts'', (out ++ out')%list)
  end.

Definition summaryLine (successCount failureCount : Z) : Line :=
  Log ("📈 Summary: " ++ string_of_Z successCount ++ " successful, "
       ++ string_of_Z failureCount ++ " failed").

Definition log (s : string) : IO World unit := lift (console (Log s)).
Definition logError (s : string) : IO World unit := lift (console (Error s)).

(** The directories the command is run in. *)
Definition targetDirectoriesOf (absolutePath : string) (stats : node)
    (packageName : option string) (subdirectories : list string)
  : list string :=
  if truthy packageName
  then filter (hasPackageJson absolutePath stats) subdirectories
  else subdirectories.

Definition execCommand (host : Host) (options : ExecCommandOptions)
  : IO World bool :=
  let directory := orDefault (directory options) "." in
  let exec := exec options in
  let maxDepth := orDefault (maxDepth options) 2 in
  let packageName := packageName options in
  io_tryCatch
    (if negb (exists_node (lookup host directory)) then
       logError ("Error: Directory '" ++ directory ++ "' does not exist") ;;;
       io_ret false
     else
       stats <- lift (stat_target (lookup host directory)) ;;
       isDir <- lift (isDirectory stats) ;;
       if negb isDir then
         logError ("Error: '" ++ directory ++ "' is not a directory") ;;;
         io_ret false
       else
         let absolutePath := resolve host directory in
         log ("📂 Scanning directory: " ++ absolutePath) ;;;
         log ("🔍 Max depth: " ++ string_of_Z maxDepth) ;;;
         log ("⚡ Command: " ++ exec) ;;;
         (if truthy packageName
          then log ("📦 Package: " ++ orDefault packageName "")
          else io_ret tt) ;;;
         log "" ;;;
         let startTime := now host 0 in
         subdirectories <-
           lift (emitting (getSubdirectories absolutePath stats maxDepth 0)) ;;
         let targetDirectories :=
           targetDirectoriesOf absolutePath stats packageName subdirectories in
         log ("Found " ++ string_of_Z (Z.of_nat (List.length targetDirectories))
              ++ " directories to process" ++ nl) ;;;
         results <- processEach exec absolutePath targetDirectories [] ;;
         let endTime := now host 1 in
         log (nl ++ "📊 Results:" ++ nl) ;;;
         counts <- lift (emitting (displayResults results (0, 0))) ;;
         let '(successCount, failureCount) := counts in
         lift (console (summaryLine successCount failureCount)) ;;;
         log ("⏱️  Completed in " ++ string_of_Z (endTime - startTime) ++ "ms") ;;;
         io_ret true)
    (fun e => logError ("Error: " ++ e) ;;; io_ret false).
End Process.

End ExecCommand.

(** ** commands/pack-command *)

Module PackCommand.

Import ExecCommand(ExecOutcome, Exited, Failed, ExecutionResult, success,
                   output, error, truthy).

Record Stats : Type := {
  stats_isDirectory : bool;
  mtime : Z                      (* [stats.mtime.getTime()] *)
}.

Section Process.
(** The machine the command acts on: its file system changes as the build
    and pack steps run, so every primitive reads the current [World]. *)
Variable World : Type.
Variable existsSync : string -> World -> bool.
Variable statSync : string -> World -> Res Stats.
Variable readdirSync : string -> World -> Res (list string).
Variable unlinkSync : string -> World -> Res unit * World.
Variable execSync : string -> option string -> World -> ExecOutcome * World.
Variable path_resolve : string -> string.
Variable path_basename : string -> string.

Local Open Scope io_scope.

Definition reading {A} (f : World -> Res A) : IO World A :=
  fun w => ((f w, []), w).
Definition acting {A} (f : World -> Res A * World) : IO World A :=
  fun w => let (r, w') := f w in ((r, []), w').
Definition log (s : string) : IO World unit := lift (console (Log s)).
Definition logWarn (s : string) : IO World unit := lift (console (Warn s)).
Definition logError (s : string) : IO World unit := lift (console (Error s)).

(** [l.forEach(body)] *)
Fixpoint forEach {A} (body : A -> IO World unit) (l : list A) : IO World unit :=
  match l with
  | [] => io_ret tt
  | x :: l' => body x ;;; forEach body l'
  end.

Definition isTarball (file : string) : bool := endsWith file ".tgz".

Definition removeTarballs (directory : string) : IO World unit :=
  io_tryCatch
    (files <- reading (readdirSync directory) ;;
     let tgzFiles := filter isTarball files in
     if (0 <? List.length tgzFiles)%nat then
       log ("🧹 Removing " ++ string_of_Z (Z.of_nat (List.length tgzFiles))
            ++ " existing .tgz file(s)...") ;;;
       forEach (fun file =>
                  let filePath := path_join directory file in
                  acting (unlinkSync filePath) ;;;
                  log ("   Removed: " ++ file))
               tgzFiles
     else log "🧹 No existing .tgz files to remove")
    (fun e => logWarn ("Warning: Could not remove .tgz files: " ++ e)).

Definition executeCommand (command directory : string)
  : IO World ExecutionResult :=
  log ("⚡ Running: " ++ command) ;;;
  fun w =>
    match execSync command (Some directory) w with
    | (Exited stdout, w') =>
        (ret {| success := true; output := trim stdout; error := None |}, w')
    | (Failed stdout message, w') =>
        let errorOutput := if truthy stdout then stdout else Some message in
        (ret {| success := false;
                output := match errorOutput with
                          | Some s => trim s
                          | None => ""
                          end;
                error := Some message |}, w')
    end.

(** The modification time of every file, as the comparator of the sort
    reads it. *)
Fixpoint withMtime (directory : string) (files : list string)
  : IO World (list (string * Z)) :=
  match files with
  | [] => io_ret []
  | file :: rest =>
      stats <- reading (statSync (path_join directory file)) ;;
      timed <- withMtime directory rest ;;
      io_ret ((file, mtime stats) :: timed)
  end.

(** [tgzFiles.sort((a, b) => statB.mtime.getTime() - statA.mtime.getTime())]:
    the comparator is not called on an array of one element; on a longer
    one every element is compared, so a file that cannot be stat'ed makes
    the sort throw. *)
Definition sortByMtime (directory : string) (tgzFiles : list string)
  : IO World (list string) :=
  match tgzFiles with
  | [] | [_] => io_ret tgzFiles
  | _ =>
      timed <- withMtime directory tgzFiles ;;
      io_ret (map fst (Array_sort (fun a b => snd b - snd a) timed))
  end.

Definition findLatestTarball (directory : string) : IO World (option string) :=
  io_tryCatch
    (files <- reading (readdirSync directory) ;;
     let tgzFiles := filter isTarball files in
     if (List.length tgzFiles =? 0)%nat then io_ret None
     else
       sortedFiles <- sortByMtime directory tgzFiles ;;
       io_ret (Some (path_join directory (hd "undefined" sortedFiles))))
    (fun e => logError ("Error finding tarball: " ++ e) ;;; io_ret None).

Definition pbcopy (text : string) : string :=
  "echo " ++ dquote ++ text ++ dquote ++ " | pbcopy".

Definition copyToClipboard (text : string) : IO World bool :=
  fun w =>
    match execSync (pbcopy text) None w with
    | (Exited _, w') => (ret true, w')
    | (Failed _ message, w') =>
        ((console (Error ("Error copying to clipboard: " ++ message)) ;;;
          ret false)%js, w')
    end.

(** [result.error || result.output] *)
Definition errorOrOutput (r : ExecutionResult) : string :=
  if truthy (error r) then orDefault (error r) "" else output r.

Definition packCommand (directory : option string) : IO World bool :=
  let directory := orDefault directory "." in
  io_tryCatch
    (fileExists <- (fun w => (ret (existsSync directory w), w)) ;;
     if negb fileExists then
       logError ("Error: Directory '" ++ directory ++ "' does not exist") ;;;
       io_ret false
     else
       stats <- reading (statSync directory) ;;
       if negb (stats_isDirectory stats) then
         logError ("Error: '" ++ directory ++ "' is not a directory") ;;;
         io_ret false
       else
         let absolutePath := path_resolve directory in
         log ("📦 Building and packing in: " ++ absolutePath) ;;;
         log "" ;;;
         removeTarballs absolutePath ;;;
         log "" ;;;
         log "🔨 Building project..." ;;;
         buildResult <- executeCommand "pnpm run build" absolutePath ;;
         if negb (success buildResult) then
           logError "❌ Build failed:" ;;;
           logError (errorOrOutput buildResult) ;;;
           io_ret false
         else
           log "✅ Build completed" ;;;
           log "" ;;;
           log "📦 Packing project..." ;;;
           packResult <- executeCommand "pnpm pack" absolutePath ;;
           if negb (success packResult) then
             logError "❌ Pack failed:" ;;;
             logError (errorOrOutput packResult) ;;;
             io_ret false
           else
             log "✅ Pack completed" ;;;
             log "" ;;;
             log "🔍 Finding latest tarball..." ;;;
             found <- findLatestTarball absolutePath ;;
             match found with
             | None =>
                 logError "❌ No .tgz file found after packing" ;;;
                 io_ret false
             | Some tarballPath =>
                 log ("📄 Found tarball: " ++ path_basename tarballPath) ;;;
                 copied <- copyToClipboard tarballPath ;;
                 (if copied : bool
                  then log ("📋 Copied to clipboard: " ++ tarballPath)
                  else log ("📄 Tarball path: " ++ tarballPath)) ;;;
                 log "" ;;;
                 log "🎉 Pack command completed successfully!" ;;;
                 io_ret true
             end)
    (fun e => logError ("Error: " ++ e) ;;; io_ret false).
End Process.

End PackCommand.


(** ** What the traversals are to compute *)

Module Walk.
Import DirectorySizes.

(** The value of [getSize], zero where it throws (on a directory it does
    not). *)
Definition sizeOf (filePath : string) (stats : node) : Z :=
  match getSize filePath stats with
  | (Ok size, _) => size
  | (Throw _, _) => 0
  end.

(** The directories below [dirPath] in discovery order: every directory
    entry is followed by the directories found inside it (pre-order), down
    to the depth [maxDepth]. *)
Definition discoveredItem (recurse : string -> node -> list DirectoryItem)
    (dirPath : string) (currentDepth : Z) (entry : string * node)
  : list DirectoryItem :=
  let '(item, stats) := entry in
  let itemPath := path_join dirPath item in
  match stats with
  | Dir _ | DirUnreadable _ =>
      {| name := item; path := itemPath; relativePath := item;
         size := sizeOf itemPath stats; depth := currentDepth |}
      :: recurse itemPath stats
  | File _ | StatFails _ => []
  end.

Fixpoint discovered (dirPath : string) (dir : node) (maxDepth currentDepth : Z)
    {struct dir} : list DirectoryItem :=
  if currentDepth >? maxDepth then []
  else
    match dir with
    | Dir items =>
        flat_map (discoveredItem
                    (fun itemPath stats =>
                       discovered itemPath stats maxDepth (currentDepth + 1))
                    dirPath currentDepth)
                 items
    | _ => []
    end.

(** [a] stands before [b] in [l]. *)
Definition before {A} (l : list A) (a b : A) : Prop :=
  exists l1 l2 l3, l = (l1 ++ a :: l2 ++ b :: l3)%list.

(** [l] is the beginning of [l']. *)
Definition beginsWith {A} (l' l : list A) : Prop :=
  exists rest, l' = (l ++ rest)%list.

Definition ofSize (s : Z) (d : DirectoryItem) : bool := size d =? s.

(** The spec's scenario: [root/{a/(file 100B), b/{c/(file 200B)}}]. *)
Definition scenario : node :=
  Dir [("a", Dir [("file", File 100)]);
       ("b", Dir [("c", Dir [("file", File 200)])])].

Definition scenarioHost : Host :=
  {| lookup := fun _ => Some scenario;
     resolve := fun _ => "/root";
     now := fun k => Z.of_nat k |}.

(** Two sibling directories of 100 and 200 bytes. *)
Definition twoDirectories : node :=
  Dir [("a", Dir [("file", File 100)]); ("b", Dir [("file", File 200)])].

Definition twoDirectoriesHost : Host :=
  {| lookup := fun _ => Some twoDirectories;
     resolve := fun _ => "/root";
     now := fun k => Z.of_nat k |}.

(** A directory that holds a directory that cannot be listed, a dangling
    link and a file of 100 bytes, in this order. *)
Definition danglingBeforeFile : node :=
  Dir [("locked", DirUnreadable "EACCES: permission denied");
       ("link", StatFails "ENOENT: no such file or directory");
       ("file", File 100)].

(** The same entries with the file before the link. *)
Definition danglingAfterFile : node :=
  Dir [("locked", DirUnreadable "EACCES: permission denied");
       ("file", File 100);
       ("link", StatFails "ENOENT: no such file or directory")].

(** A node is a directory the scan can list or not. *)
Definition directoryNode (stats : node) : Prop :=
  match stats with
  | Dir _ | DirUnreadable _ => True
  | File _ | StatFails _ => False
  end.

(** [statSync] succeeds on the node. *)
Definition statable (stats : node) : Prop :=
  match stats with
  | StatFails _ => False
  | _ => True
  end.

Definition sumZ (l : list Z) : Z := fold_right Z.add 0 l.

End Walk.

Module Dispatch.
Import ExecCommand.

(** The subdirectories the exec command looks at: a directory entry at a
    depth up to [maxDepth] whose name, like the name of every directory above
    it up to the scanned one, is not on the deny-list. *)
Inductive Qualifies (maxDepth : Z) : string -> node -> Z -> string -> Prop :=
| qualifies_here dirPath items currentDepth item stats :
    currentDepth <= maxDepth ->
    In (item, stats) items ->
    Walk.directoryNode stats ->
    ~ In item skipDirs ->
    Qualifies maxDepth dirPath (Dir items) currentDepth (path_join dirPath item)
| qualifies_below dirPath items currentDepth item stats p :
    currentDepth <= maxDepth ->
    In (item, stats) items ->
    Walk.directoryNode stats ->
    ~ In item skipDirs ->
    Qualifies maxDepth (path_join dirPath item) stats (currentDepth + 1) p ->
    Qualifies maxDepth dirPath (Dir items) currentDepth p.

(** What an entry of a listing adds to the list of the qualifying paths. *)
Definition entryQualifies (stats : node) (item p : string)
    (below : list string) (dirPath : string) : Prop :=
  Walk.directoryNode stats
  /\ ~ In item skipDirs
  /\ (path_join dirPath item = p \/ In p below).

(** The same as a list, in discovery order. *)
Definition qualifyingItem (recurse : string -> node -> list string)
    (dirPath : string) (entry : string * node) : list string :=
  let '(item, stats) := entry in
  let itemPath := path_join dirPath item in
  match stats with
  | Dir _ | DirUnreadable _ =>
      if includes skipDirs item then [] else itemPath :: recurse itemPath stats
  | File _ | StatFails _ => []
  end.

Fixpoint qualifying (dirPath : string) (dir : node) (maxDepth currentDepth : Z)
    {struct dir} : list string :=
  if currentDepth >? maxDepth then []
  else
    match dir with
    | Dir items =>
        flat_map (qualifyingItem
                    (fun itemPath stats =>
                       qualifying itemPath stats maxDepth (currentDepth + 1))
                    dirPath)
                 items
    | _ => []
    end.

(** What is at a path at or below [dirPath]: the node [dir] that [dirPath]
    names, or what is at the path below an entry of [dir], an entry [item]
    of the directory at [dirPath] being at [path_join dirPath item]. *)
Inductive NodeAt : string -> node -> string -> node -> Prop :=
| at_top dirPath dir : NodeAt dirPath dir dirPath dir
| at_entry dirPath items item stats p found :
    In (item, stats) items ->
    NodeAt (path_join dirPath item) stats p found ->
    NodeAt dirPath (Dir items) p found.

(** The directory at [p] lists an entry named [package.json] that can be
    stat'ed. *)
Definition holdsPackageJson (absolutePath : string) (root : node) (p : string)
  : Prop :=
  exists items child,
    NodeAt absolutePath root p (Dir items)
    /\ In ("package.json", child) items
    /\ Walk.statable child.

(** A name of an entry holds no path separator. *)
Fixpoint hasSeparator (s : string) : bool :=
  match s with
  | EmptyString => false
  | String c s => Ascii.eqb c "/" || hasSeparator s
  end.

Fixpoint plainNames (stats : node) : bool :=
  match stats with
  | Dir items =>
      forallb (fun '(item, child) => negb (hasSeparator item) && plainNames child)
              items
  | File _ | DirUnreadable _ | StatFails _ => true
  end.

Section Observed.
Variable World : Type.
Variable execSync : string -> string -> World -> ExecOutcome * World.

(** [execSync] on a machine that also keeps the list of the directories
    it was called in. *)
Definition recording (command dirPath : string) (w : World * list string)
  : ExecOutcome * (World * list string) :=
  let (outcome, w') := execSync command dirPath (fst w) in
  (outcome, (w', (snd w ++ [dirPath])%list)).

(** The directories [execCommand] runs the command in, in order. *)
Definition dispatchedTo (host : Host) (options : ExecCommandOptions)
    (w : World) : list string :=
  snd (snd (execCommand (World * list string) recording host options (w, []))).

(** The commands run one after the other, each on the machine the
    previous one left, whatever the previous one returned. *)
Fixpoint runEach (command : string) (dirs : list string) (w : World)
  : list (string * ExecOutcome) * World :=
  match dirs with
  | [] => ([], w)
  | dir :: rest =>
      let (outcome, w') := execSync command dir w in
      let (outcomes, w'') := runEach command rest w' in
      ((dir, outcome) :: outcomes, w'')
  end.
End Observed.

(** What is kept of a command's outcome. *)
Definition resultOf (outcome : ExecOutcome) : ExecutionResult :=
  match outcome with
  | Exited stdout => {| success := true; output := trim stdout; error := None |}
  | Failed stdout message =>
      {| success := false;
         output := trim (match stdout with
                         | Some (String c s) => String c s
                         | _ => message
                         end);
         error := Some message |}
  end.

Definition processedOf (absolutePath : string) (run : string * ExecOutcome)
  : Processed :=
  {| processedDirectory := fst run;
     processedRelativePath := path_relative absolutePath (fst run);
     result := resultOf (snd run) |}.

Definition succeeded (run : string * ExecOutcome) : bool :=
  match snd run with Exited _ => true | Failed _ _ => false end.

Definition countZ {A} (f : A -> bool) (l : list A) : Z :=
  Z.of_nat (List.length (filter f l)).

Definition failed (run : string * ExecOutcome) : bool := negb (succeeded run).

Definition processingLine (absolutePath dir : string) : Line :=
  Log ("🔄 Processing: " ++ path_relative absolutePath dir).

(** The directories the command is to run in, as [execCommand] computes
    them. *)
Definition targetsOf (host : Host) (options : ExecCommandOptions) (stats : node)
  : list string :=
  let directory := orDefault (directory options) "." in
  let absolutePath := resolve host directory in
  targetDirectoriesOf absolutePath stats (packageName options)
    (fst (getSubdirectories absolutePath stats
                            (orDefault (maxDepth options) 2) 0)).

Definition completedLine (host : Host) : Line :=
  Log ("⏱️  Completed in " ++ string_of_Z (now host 1 - now host 0) ++ "ms").


(** A project with three packages, one of them below a skipped directory. *)
Definition workspace : node :=
  Dir [("x", Dir [("package.json", File 10);
                  ("node_modules", Dir [("m", Dir [("package.json", File 1)])])]);
       ("README.md", File 1);
       ("y", Dir [("z", Dir [("package.json", File 3)])])].

Definition workspaceHost : Host :=
  {| lookup := fun _ => Some workspace;
     resolve := fun _ => "/r";
     now := fun k => Z.of_nat k |}.

(** A machine without state on which the command fails in [/r/x] only. *)
Definition failsInX (command dirPath : string) (w : unit) : ExecOutcome * unit :=
  if String.eqb dirPath "/r/x"
  then (Failed (Some (" partial" ++ nl)) "Command failed: false", w)
  else (Exited ("ok" ++ nl), w).

(** A machine on which every command fails. *)
Definition alwaysFails (command dirPath : string) (w : unit) : ExecOutcome * unit :=
  (Failed None "Command failed", w).

Definition execIn (maxDepth : Z) (packageName : option string)
  : ExecCommandOptions :=
  {| directory := None; exec := "false"; maxDepth := Some maxDepth;
     packageName := packageName |}.

End Dispatch.

Module Packing.
Import ExecCommand PackCommand.

(** A machine whose state is the listing of the project directory
    [/proj]: [pnpm pack] adds a tarball to it, and there is no clipboard. *)
Definition demoReaddir (directory : string) (files : list string)
  : Res (list string) :=
  Ok files.

Definition demoUnlink (filePath : string) (files : list string)
  : Res unit * list string :=
  (Ok tt,
   filter (fun file => negb (String.eqb (path_join "/proj" file) filePath))
          files).

Definition demoExec (command : string) (cwd : option string)
    (files : list string) : ExecOutcome * list string :=
  if String.eqb command "pnpm pack"
  then (Exited "pkg-1.0.0.tgz", (files ++ ["pkg-1.0.0.tgz"])%list)
  else if String.eqb command "pnpm run build" then (Exited "", files)
  else (Failed None "pbcopy: command not found", files).

Definition demoStat (p : string) (files : list string) : Res Stats :=
  Ok {| stats_isDirectory := true; mtime := 0 |}.

(** [path.basename(p)] *)
Definition basename (p : string) : string := last (split "/"%char p) "".

Definition demoFiles : list string := ["old.tgz"; "package.json"; "src"].

Definition demoPack : IO (list string) bool :=
  packCommand (list string) (fun _ _ => true) demoStat demoReaddir demoUnlink
              demoExec (fun _ => "/proj") basename None.

End Packing.

(** ** Measures of a tree and observations of a run *)

Module Coverage.

(** The bytes of all the files of a tree. *)
Fixpoint totalBytes (stats : node) : Z :=
  match stats with
  | File size => size
  | Dir items => Walk.sumZ (map (fun '(_, child) => totalBytes child) items)
  | DirUnreadable _ | StatFails _ => 0
  end.

(** Every entry of the tree can be stat'ed and every directory listed. *)
Fixpoint fullyReadable (stats : node) : bool :=
  match stats with
  | File _ => true
  | Dir items => forallb (fun '(_, child) => fullyReadable child) items
  | DirUnreadable _ | StatFails _ => false
  end.

(** No file has a negative size. *)
Fixpoint sizesNonNegative (stats : node) : bool :=
  match stats with
  | File size => 0 <=? size
  | Dir items => forallb (fun '(_, child) => sizesNonNegative child) items
  | DirUnreadable _ | StatFails _ => true
  end.

(** A directory whose files add up to 2^53 + 1 bytes. *)
Definition pastExactSums : node :=
  Dir [("big", File (2 ^ 53)); ("small", File 1)].

(** Every directory of the tree can be listed; entries that cannot be
    stat'ed are allowed. *)
Fixpoint everyDirectoryListable (stats : node) : bool :=
  match stats with
  | Dir items => forallb (fun '(_, child) => everyDirectoryListable child) items
  | DirUnreadable _ => false
  | File _ | StatFails _ => true
  end.

(** No entry of the tree has a name of the deny-list of the exec command. *)
Fixpoint noSkippedName (stats : node) : bool :=
  match stats with
  | Dir items =>
      forallb (fun '(item, child) =>
                 negb (includes ExecCommand.skipDirs item) && noSkippedName child)
              items
  | File _ | DirUnreadable _ | StatFails _ => true
  end.

(** The number of hundredths [toFixed(2)] keeps of [num / den], and the
    string printed for a number of hundredths. *)
Definition hundredths (num den : Z) : Z := (200 * num + den) / (2 * den).

Definition renderHundredths (n : Z) : string :=
  let q := n / 100 in
  let r := n mod 100 in
  if r =? 0 then string_of_Z q
  else if r mod 10 =? 0 then string_of_Z q ++ "." ++ string_of_Z (r / 10)
  else string_of_Z q ++ "." ++ string_of_Z (r / 10) ++ string_of_Z (r mod 10).


Section PackObserved.
Variable World : Type.
Variable existsSync : string -> World -> bool.
Variable statSync : string -> World -> Res PackCommand.Stats.
Variable readdirSync : string -> World -> Res (list string).
Variable unlinkSync : string -> World -> Res unit * World.
Variable execSync :
  string -> option string -> World -> ExecCommand.ExecOutcome * World.
Variable path_resolve : string -> string.
Variable path_basename : string -> string.

(** The machine with a journal: the paths [unlinkSync] was called on and
    the commands [execSync] was called with, in the order of the calls. *)
Record Journal : Type := {
  unlinked : list string;
  executed : list string
}.

Definition Observed : Type := (World * Journal)%type.

Definition observedExists (p : string) (w : Observed) : bool :=
  existsSync p (fst w).
Definition observedStat (p : string) (w : Observed) : Res PackCommand.Stats :=
  statSync p (fst w).
Definition observedReaddir (p : string) (w : Observed) : Res (list string) :=
  readdirSync p (fst w).

Definition observedUnlink (p : string) (w : Observed) : Res unit * Observed :=
  let (r, w') := unlinkSync p (fst w) in
  (r, (w', {| unlinked := (unlinked (snd w) ++ [p])%list;
              executed := executed (snd w) |})).

Definition observedExec (command : string) (cwd : option string) (w : Observed)
  : ExecCommand.ExecOutcome * Observed :=
  let (outcome, w') := execSync command cwd (fst w) in
  (outcome, (w', {| unlinked := unlinked (snd w);
                    executed := (executed (snd w) ++ [command])%list |})).

Definition noJournal : Journal := {| unlinked := []; executed := [] |}.

(** [unlinkSync] called on the paths one after the other, each call on the
    machine the call before left, up to and with the first call that throws:
    the paths it is called on and the machine the last call leaves. *)
Fixpoint unlinkedUntilThrow (paths : list string) (w : World)
  : list string * World :=
  match paths with
  | [] => ([], w)
  | p :: rest =>
      match unlinkSync p w with
      | (Ok _, w') =>
          let (done, w'') := unlinkedUntilThrow rest w' in (p :: done, w'')
      | (Throw _, w') => ([p], w')
      end
  end.

(** [removeTarballs] and [packCommand] on the machine with a journal. *)
Definition observedRemoveTarballs (directory : string)
  : IO Observed unit :=
  PackCommand.removeTarballs Observed observedReaddir observedUnlink directory.

Definition observedPackCommand (directory : option string)
  : IO Observed bool :=
  PackCommand.packCommand Observed observedExists observedStat observedReaddir
    observedUnlink observedExec path_resolve path_basename directory.
End PackObserved.

(** A machine on which the build fails. *)
Definition brokenBuild (command : string) (cwd : option string)
    (files : list string) : ExecCommand.ExecOutcome * list string :=
  if String.eqb command "pnpm run build"
  then (ExecCommand.Failed (Some "") "Command failed: pnpm run build", files)
  else Packing.demoExec command cwd files.

(** Modification times for the files of a directory. *)
Definition demoMtime (p : string) (files : list string)
  : Res PackCommand.Stats :=
  Ok {| PackCommand.stats_isDirectory := false;
        PackCommand.mtime :=
          if String.eqb p "/proj/new.tgz" then 30
          else if String.eqb p "/proj/old.tgz" then 10 else 20 |}.

(** A directory with an old and a new tarball. *)
Definition twoTarballs : list string := ["old.tgz"; "notes.txt"; "new.tgz"].

Definition demoMt (file : string) : Z :=
  if String.eqb file "new.tgz" then 30
  else if String.eqb file "old.tgz" then 10 else 20.

(** A machine on which the tarball [b.tgz] cannot be deleted. *)
Definition guardedUnlink (filePath : string) (files : list string)
  : Res unit * list string :=
  if String.eqb filePath "/proj/b.tgz"
  then (Throw "EPERM: operation not permitted", files)
  else Packing.demoUnlink filePath files.

Definition threeTarballs : list string := ["a.tgz"; "b.tgz"; "notes"; "c.tgz"].

(** A machine on which nothing exists. *)
Definition nothingExists (p : string) (files : list string) : bool := false.

End Coverage.

(** * Properties *)

(** ** Induction on the file system *)

Section NodeInduction.
Variable P : node -> Prop.
Hypothesis on_file : forall size, P (File size).
Hypothesis on_dir :
  forall items, Forall (fun entry => P (snd entry)) items -> P (Dir items).
Hypothesis on_unreadable : forall message, P (DirUnreadable message).
Hypothesis on_stat_fails : forall message, P (StatFails message).

Lemma node_induction : forall stats, P stats.
Proof.
  fix IH 1. intros [size | items | message | message].
  - apply on_file.
  - apply on_dir. induction items as [| [item stats] items IHitems].
    + constructor.
    + constructor; [apply IH | exact IHitems].
  - apply on_unreadable.
  - apply on_stat_fails.
Qed.
End NodeInduction.

(** ** Loops and handlers *)

Lemma bind_ret {A B} (a : A) (f : A -> M B) : bind (ret a) f = f a.
Proof.
  unfold bind, ret. now destruct (f a).
Qed.

Lemma tryCatch_console (m : M unit) (line : string -> Line) :
  exists out, tryCatch m (fun e => console (line e)) = (Ok tt, out).
Proof.
  destruct m as [[[] | e] out]; simpl; eauto.
Qed.

(** A loop whose body does not throw runs over all the items. *)
Lemma forOf_total {A S} (body : A -> S -> M S) (step : S -> A -> S) items :
  Forall (fun item => forall s, exists out, body item s = (Ok (step s item), out))
         items ->
  forall s, exists out,
    forOf body items s = (fold_left step items s, (Ok tt, out)).
Proof.
  induction 1 as [| item items Hitem _ IH]; intros s; simpl.
  - eexists; reflexivity.
  - destruct (Hitem s) as [out ->].
    destruct (IH (step s item)) as [out' ->]. eexists; reflexivity.
Qed.

(** ** Adding doubles *)

Lemma jsAdd_exact a b : Z.abs (a + b) < 2 ^ 53 -> jsAdd a b = a + b.
Proof.
  intros Hsum. unfold jsAdd, roundDouble.
  destruct (Z.ltb_spec (Z.abs (a + b)) (2 ^ 53)); [reflexivity | lia].
Qed.

Lemma sumZ_nonneg {A} (f : A -> Z) items :
  Forall (fun item => 0 <= f item) items -> 0 <= Walk.sumZ (map f items).
Proof.
  induction 1 as [| item items Hitem _ IH]; unfold Walk.sumZ in *;
    cbn [map fold_right]; lia.
Qed.

Lemma fold_left_app_flat_map {A B} (f : A -> list B) items (acc : list B) :
  fold_left (fun acc item => (acc ++ f item)%list) items acc
  = (acc ++ flat_map f items)%list.
Proof.
  revert acc; induction items as [| item items IH]; intros acc; simpl.
  - now rewrite app_nil_r.
  - rewrite IH. now rewrite <- app_assoc.
Qed.

(** ** [getSize] *)

Module SizeFacts.
Import DirectorySizes Walk.

Lemma getSize_directory filePath stats :
  directoryNode stats ->
  exists out, getSize filePath stats = (Ok (sizeOf filePath stats), out).
Proof.
  unfold sizeOf.
  destruct stats as [size | items | message | message]; simpl; try contradiction;
    intros _.
  - destruct (forOf (addSize getSize filePath) items 0) as [totalSize loop].
    destruct (tryCatch_console loop (cannotReadDirectory filePath)) as [out ->].
    simpl. eauto.
  - eauto.
Qed.

Lemma getSize_statable filePath stats :
  statable stats ->
  exists out, getSize filePath stats = (Ok (sizeOf filePath stats), out).
Proof.
  destruct stats as [size | items | message | message]; intros Hstat.
  - unfold sizeOf; simpl. eexists; reflexivity.
  - now apply getSize_directory.
  - now apply getSize_directory.
  - destruct Hstat.
Qed.

(** A directory that cannot be listed counts for nothing, with a warning. *)
Lemma getSize_unreadable filePath message :
  getSize filePath (DirUnreadable message)
  = (Ok 0, [cannotReadDirectory filePath message]).
Proof. reflexivity. Qed.

(** Sizes that are not negative and add up to less than 2^53 are added
    exactly, one after the other. *)
Lemma fold_left_jsAdd_sum {A} (f : A -> Z) items acc :
  Forall (fun item => 0 <= f item) items ->
  0 <= acc ->
  acc + sumZ (map f items) < 2 ^ 53 ->
  fold_left (fun total item => jsAdd total (f item)) items acc
  = acc + sumZ (map f items).
Proof.
  intros Hitems; revert acc.
  induction Hitems as [| item items Hitem Hitems IH]; intros acc Hacc Hsum;
    unfold sumZ in *; cbn [map fold_right fold_left] in *.
  - lia.
  - pose proof (sumZ_nonneg f items Hitems) as Hrest. unfold sumZ in Hrest.
    rewrite jsAdd_exact by lia.
    rewrite IH by lia. lia.
Qed.

(** Where every entry of a directory can be stat'ed, and the sizes of the
    entries are not negative and add up to less than 2^53, the size of the
    directory is the sum of the sizes of its entries, and no warning is
    written for the directory itself. *)
Lemma getSize_sums_entries filePath items :
  Forall (fun entry => statable (snd entry)) items ->
  Forall (fun entry =>
            0 <= sizeOf (path_join filePath (fst entry)) (snd entry)) items ->
  sumZ (map (fun entry => sizeOf (path_join filePath (fst entry)) (snd entry))
            items) < 2 ^ 53 ->
  exists out,
    getSize filePath (Dir items)
    = (Ok (sumZ (map (fun entry => sizeOf (path_join filePath (fst entry))
                                          (snd entry)) items)), out).
Proof.
  intros Hitems Hsizes Hsum. simpl.
  destruct (forOf_total (addSize getSize filePath)
              (fun total entry =>
                 jsAdd total
                       (sizeOf (path_join filePath (fst entry)) (snd entry)))
              items) with (s := 0) as [out Hloop].
  - eapply Forall_impl; [| exact Hitems].
    intros [item stats] Hstat total. simpl in *.
    destruct (getSize_statable (path_join filePath item) stats Hstat) as [out ->].
    simpl. eauto.
  - rewrite Hloop. simpl.
    rewrite (fold_left_jsAdd_sum
               (fun entry => sizeOf (path_join filePath (fst entry)) (snd entry)))
      by (trivial; lia).
    simpl. rewrite app_nil_r. eauto.
Qed.

End SizeFacts.

(** ** What the console ends with *)

Lemma ends_refl tail : endsWithLines tail tail.
Proof. now exists []. Qed.

Lemma ends_cons line out tail :
  endsWithLines out tail -> endsWithLines (line :: out) tail.
Proof. intros [before ->]. now exists (line :: before). Qed.

Lemma ends_app out' out tail :
  endsWithLines out tail -> endsWithLines (out' ++ out) tail.
Proof. intros [before ->]. exists (out' ++ before)%list. apply app_assoc. Qed.

Lemma ends_result {A W} (r : Res A) (w : W) out tail :
  endsWithLines out tail ->
  exists before, (r, out, w) = (r, (before ++ tail)%list, w).
Proof. intros [before ->]. now exists before. Qed.

Ltac ends_with_tail :=
  repeat first [apply ends_refl | apply ends_cons | apply ends_app].

(** ** Sorting and slicing *)

Section SortFacts.
Context {A : Type} (compare : A -> A -> Z).
Local Abbreviation inOrder := (inOrder compare).

Hypothesis compare_total : forall a b, 0 < compare a b -> compare b a <= 0.
Hypothesis compare_trans :
  forall a b c, inOrder a b -> inOrder b c -> inOrder a c.

Lemma Array_insert_perm x l : Permutation (x :: l) (Array_insert compare x l).
Proof.
  induction l as [| y l IH]; simpl.
  - apply Permutation_refl.
  - destruct (compare x y <=? 0).
    + apply Permutation_refl.
    + eapply perm_trans; [apply perm_swap |]. now apply perm_skip.
Qed.

Lemma Array_sort_perm l : Permutation l (Array_sort compare l).
Proof.
  induction l as [| x l IH]; simpl.
  - constructor.
  - eapply perm_trans; [apply perm_skip, IH | apply Array_insert_perm].
Qed.

Lemma Array_insert_sorted x l :
  StronglySorted inOrder l -> StronglySorted inOrder (Array_insert compare x l).
Proof.
  induction 1 as [| y l Hsorted IH Hy]; simpl.
  - repeat constructor.
  - destruct (compare x y <=? 0) eqn:Hxy.
    + apply Z.leb_le in Hxy. constructor.
      * now constructor.
      * constructor; [exact Hxy |].
        eapply Forall_impl; [| exact Hy]. intros z Hz.
        now apply compare_trans with y.
    + apply Z.leb_gt in Hxy. constructor; [exact IH |].
      rewrite Forall_forall in *. intros z Hz.
      apply (Permutation_in _ (Permutation_sym (Array_insert_perm x l))) in Hz.
      destruct Hz as [<- | Hz]; [now apply compare_total | now apply Hy].
Qed.

Lemma Array_sort_sorted l : StronglySorted inOrder (Array_sort compare l).
Proof.
  induction l as [| x l IH]; simpl.
  - constructor.
  - now apply Array_insert_sorted.
Qed.

(** The sort is stable: the elements of a class [p] that the comparator
    never puts apart from each other keep their order. *)
Lemma Array_insert_filter (p : A -> bool) x l :
  (forall y, 0 < compare x y -> p x = true -> p y = false) ->
  filter p (Array_insert compare x l)
  = if p x then x :: filter p l else filter p l.
Proof.
  intros Hclass. induction l as [| y l IH]; simpl.
  - reflexivity.
  - destruct (compare x y <=? 0) eqn:Hxy; simpl.
    + reflexivity.
    + apply Z.leb_gt in Hxy. rewrite IH.
      destruct (p x) eqn:Hpx.
      * now rewrite (Hclass y Hxy eq_refl).
      * reflexivity.
Qed.

Lemma Array_sort_stable (p : A -> bool) l :
  (forall x y, 0 < compare x y -> p x = true -> p y = false) ->
  filter p (Array_sort compare l) = filter p l.
Proof.
  intros Hclass. induction l as [| x l IH]; simpl.
  - reflexivity.
  - rewrite Array_insert_filter by (apply Hclass). now rewrite IH.
Qed.
End SortFacts.

Lemma Array_slice0_firstn {A} finish (l : list A) :
  exists n, Array_slice0 finish l = firstn n l.
Proof.
  unfold Array_slice0. destruct (finish <? 0); eexists; reflexivity.
Qed.

(** A slice that is not shorter than the array is the array. *)
Lemma Array_slice0_all {A} finish (l : list A) :
  Z.of_nat (List.length l) <= finish -> Array_slice0 finish l = l.
Proof.
  intros Hlen. unfold Array_slice0.
  destruct (finish <? 0) eqn:Hneg.
  - apply Z.ltb_lt in Hneg. lia.
  - apply firstn_all2. lia.
Qed.

Lemma firstn_In {A} n (l : list A) x : In x (firstn n l) -> In x l.
Proof.
  intros Hin. rewrite <- (firstn_skipn n l). apply in_or_app. now left.
Qed.

Lemma StronglySorted_firstn {A} (R : A -> A -> Prop) n l :
  StronglySorted R l -> StronglySorted R (firstn n l).
Proof.
  intros Hsorted. revert n.
  induction Hsorted as [| x l _ IH Hx]; intros [| n]; simpl; try constructor.
  - apply IH.
  - rewrite Forall_forall in *. intros y Hy. eapply Hx, firstn_In, Hy.
Qed.

Lemma filter_firstn_begins {A} (p : A -> bool) n l :
  Walk.beginsWith (filter p l) (filter p (firstn n l)).
Proof.
  exists (filter p (skipn n l)).
  now rewrite <- filter_app, firstn_skipn.
Qed.

Lemma StronglySorted_after {A} (R : A -> A -> Prop) l1 b rest a :
  StronglySorted R (l1 ++ b :: rest) -> In a rest -> R b a.
Proof.
  induction l1 as [| x l1 IH]; simpl; intros Hsorted Hin.
  - apply StronglySorted_inv in Hsorted as [_ Hb].
    rewrite Forall_forall in Hb. now apply Hb.
  - apply StronglySorted_inv in Hsorted as [Hsorted _]. now apply IH.
Qed.

(** In a sorted list an element stands before every element that is
    strictly after it in the order. *)
Lemma sorted_before {A} (R : A -> A -> Prop) l a b :
  (forall x, R x x) ->
  StronglySorted R l -> In a l -> In b l -> ~ R b a -> Walk.before l a b.
Proof.
  intros Hrefl Hsorted Ha Hb Hnot.
  destruct (in_split _ _ Hb) as (l1 & rest & ->).
  apply in_app_or in Ha. destruct Ha as [Ha | [-> | Ha]].
  - destruct (in_split _ _ Ha) as (l0 & l2 & ->).
    exists l0, l2, rest. now rewrite <- app_assoc.
  - exfalso. apply Hnot, Hrefl.
  - exfalso. apply Hnot. eapply StronglySorted_after; eauto.
Qed.

(** ** Paths *)

Lemma append_assoc (a b c : string) : ((a ++ b) ++ c = a ++ (b ++ c))%string.
Proof.
  induction a as [| x a IH]; simpl; [reflexivity | now rewrite IH].
Qed.

Lemma prefix_append (a b : string) : String.prefix a (a ++ b) = true.
Proof.
  induction a as [| x a IH]; simpl; [now destruct b |].
  destruct (ascii_dec x x); [exact IH | congruence].
Qed.

Lemma substring_all (s : string) : String.substring 0 (String.length s) s = s.
Proof.
  induction s as [| x s IH]; simpl; [reflexivity | now rewrite IH].
Qed.

Lemma substring_append (a b : string) :
  String.substring (String.length a)
                   (String.length (a ++ b) - String.length a) (a ++ b)
  = b.
Proof.
  induction a as [| x a IH]; simpl.
  - rewrite Nat.sub_0_r. apply substring_all.
  - exact IH.
Qed.

(** The path of an entry relative to its directory is the name of the
    entry. *)
Lemma path_relative_join dirPath item :
  path_relative dirPath (path_join dirPath item) = item.
Proof.
  unfold path_relative, path_join.
  rewrite <- append_assoc.
  rewrite prefix_append. apply substring_append.
Qed.

(** ** The size report *)

Module ReportFacts.
Import DirectorySizes Walk SizeFacts.

Lemma listItem_value recurse found dirPath currentDepth item stats directories :
  fst (recurse (path_join dirPath item) stats)
  = found (path_join dirPath item) stats ->
  exists out,
    listItem recurse dirPath currentDepth (item, stats) directories
    = (Ok (directories
           ++ discoveredItem found dirPath currentDepth (item, stats))%list,
       out).
Proof.
  intros Hrec. unfold listItem, discoveredItem. cbv zeta.
  rewrite path_relative_join.
  destruct stats as [size | items | message | message].
  - simpl. rewrite app_nil_r. eauto.
  - destruct (getSize_directory (path_join dirPath item) (Dir items) I)
      as [out Hsize].
    cbn [isDirectory]. unfold bind at 1. cbn [ret].
    rewrite Hsize. unfold bind, emitting, ret, tryCatch. simpl.
    rewrite Hrec. rewrite <- app_assoc. simpl. eauto.
  - destruct (getSize_directory (path_join dirPath item)
                (DirUnreadable message) I) as [out Hsize].
    cbn [isDirectory]. unfold bind at 1. cbn [ret].
    rewrite Hsize. unfold bind, emitting, ret, tryCatch. simpl.
    rewrite Hrec. rewrite <- app_assoc. simpl. eauto.
  - simpl. rewrite app_nil_r. eauto.
Qed.

Lemma listDirectoryContents_Dir dirPath prefix items maxDepth currentDepth topCount :
  listDirectoryContents dirPath prefix (Dir items) maxDepth currentDepth topCount
  = if currentDepth >? maxDepth then ([], [])
    else
      let '(directories, attempt) :=
        forOf (listItem
                 (fun itemPath stats =>
                    listDirectoryContents itemPath prefix stats maxDepth
                                          (currentDepth + 1) topCount)
                 dirPath currentDepth)
              items [] in
      let '(_, out) :=
        tryCatch attempt (fun e => console (errorReadingDirectory dirPath e)) in
      if currentDepth =? 0 then
        let '(topDirectories, report) := rankAndReport topCount directories in
        (topDirectories, (out ++ report)%list)
      else (directories, out).
Proof. reflexivity. Qed.

Lemma discovered_Dir dirPath items maxDepth currentDepth :
  discovered dirPath (Dir items) maxDepth currentDepth
  = if currentDepth >? maxDepth then []
    else flat_map (discoveredItem
                     (fun itemPath stats =>
                        discovered itemPath stats maxDepth (currentDepth + 1))
                     dirPath currentDepth)
                  items.
Proof. reflexivity. Qed.

(** The loop of the walker collects the directories in discovery order. *)
Lemma walk_loop dirPath prefix items maxDepth currentDepth topCount :
  Forall (fun entry =>
            forall itemPath,
              fst (listDirectoryContents itemPath prefix (snd entry) maxDepth
                                         (currentDepth + 1) topCount)
              = discovered itemPath (snd entry) maxDepth (currentDepth + 1))
         items ->
  exists out,
    forOf (listItem
             (fun itemPath stats =>
                listDirectoryContents itemPath prefix stats maxDepth
                                      (currentDepth + 1) topCount)
             dirPath currentDepth)
          items []
    = (flat_map (discoveredItem
                   (fun itemPath stats =>
                      discovered itemPath stats maxDepth (currentDepth + 1))
                   dirPath currentDepth)
                items,
       (Ok tt, out)).
Proof.
  intros Hitems.
  edestruct (forOf_total
               (listItem
                  (fun itemPath stats =>
                     listDirectoryContents itemPath prefix stats maxDepth
                                           (currentDepth + 1) topCount)
                  dirPath currentDepth)
               (fun acc entry =>
                  (acc ++ discoveredItem
                            (fun itemPath stats =>
                               discovered itemPath stats maxDepth
                                          (currentDepth + 1))
                            dirPath currentDepth entry)%list)
               items) with (s := @nil DirectoryItem) as [out Hloop].
  - eapply Forall_impl; [| exact Hitems].
    intros [item stats] Hrec directories. apply listItem_value. apply Hrec.
  - rewrite Hloop, fold_left_app_flat_map. simpl. eauto.
Qed.

(** Below the root call the walker returns the directories as it found
    them. *)
Lemma listDirectoryContents_below prefix maxDepth topCount dir :
  forall dirPath currentDepth,
    0 < currentDepth ->
    fst (listDirectoryContents dirPath prefix dir maxDepth currentDepth topCount)
    = discovered dirPath dir maxDepth currentDepth.
Proof.
  induction dir as [size | items IH | message | message] using node_induction;
    intros dirPath currentDepth Hdepth.
  - simpl. destruct (currentDepth >? maxDepth); [reflexivity |].
    replace (currentDepth =? 0) with false by (symmetry; apply Z.eqb_neq; lia).
    reflexivity.
  - rewrite listDirectoryContents_Dir, discovered_Dir.
    destruct (currentDepth >? maxDepth); [reflexivity |].
    destruct (walk_loop dirPath prefix items maxDepth currentDepth topCount)
      as [out ->].
    + eapply Forall_impl; [| exact IH]. intros entry Hentry itemPath.
      apply Hentry. lia.
    + replace (currentDepth =? 0) with false by (symmetry; apply Z.eqb_neq; lia).
      reflexivity.
  - simpl. destruct (currentDepth >? maxDepth); [reflexivity |].
    replace (currentDepth =? 0) with false by (symmetry; apply Z.eqb_neq; lia).
    reflexivity.
  - simpl. destruct (currentDepth >? maxDepth); [reflexivity |].
    replace (currentDepth =? 0) with false by (symmetry; apply Z.eqb_neq; lia).
    reflexivity.
Qed.

(** The root call returns the top of the ranking of the directories found,
    and prints it after what the scan wrote. *)
Lemma listDirectoryContents_root dirPath prefix dir maxDepth topCount :
  0 <= maxDepth ->
  exists out,
    listDirectoryContents dirPath prefix dir maxDepth 0 topCount
    = (let top := Array_slice0 topCount
                    (Array_sort bySizeDescending
                                (discovered dirPath dir maxDepth 0)) in
       (top,
        (out ++ Log (nl ++ "📊 Top " ++ string_of_Z topCount
                     ++ " directories by size:" ++ nl)
             :: forEachIndexed reportLine 0 top)%list)).
Proof.
  intros Hmax.
  assert (Hgt : (0 >? maxDepth) = false) by (rewrite Z.gtb_ltb; apply Z.ltb_ge; lia).
  destruct dir as [size | items | message | message].
  - simpl. rewrite Hgt. simpl. eexists [_]. reflexivity.
  - rewrite listDirectoryContents_Dir, discovered_Dir. rewrite Hgt.
    destruct (walk_loop dirPath prefix items maxDepth 0 topCount) as [out ->].
    + apply Forall_forall. intros entry _ itemPath.
      apply listDirectoryContents_below. lia.
    + simpl. exists out. reflexivity.
  - simpl. rewrite Hgt. simpl. eexists [_]. reflexivity.
  - simpl. rewrite Hgt. simpl. eexists [_]. reflexivity.
Qed.

Lemma listDirectoryContents_top dirPath prefix dir maxDepth topCount :
  fst (listDirectoryContents dirPath prefix dir maxDepth 0 topCount)
  = Array_slice0 topCount
      (Array_sort bySizeDescending (discovered dirPath dir maxDepth 0)).
Proof.
  destruct (Z.le_gt_cases 0 maxDepth) as [Hmax | Hmax].
  - destruct (listDirectoryContents_root dirPath prefix dir maxDepth topCount Hmax)
      as [out ->]. reflexivity.
  - assert (Hgt : (0 >? maxDepth) = true) by (rewrite Z.gtb_ltb; apply Z.ltb_lt; lia).
    destruct dir; simpl; rewrite Hgt; simpl;
      now destruct (Array_slice0_firstn topCount (@nil DirectoryItem)) as [[|n] ->].
Qed.

End ReportFacts.

(** ** Claims on the size report *)

Module ReportClaims.
Import DirectorySizes Walk SizeFacts ReportFacts.

Lemma bySizeDescending_total a b :
  0 < bySizeDescending a b -> bySizeDescending b a <= 0.
Proof. unfold bySizeDescending. lia. Qed.

Lemma bySizeDescending_trans a b c :
  inOrder bySizeDescending a b -> inOrder bySizeDescending b c ->
  inOrder bySizeDescending a c.
Proof. unfold inOrder, bySizeDescending. lia. Qed.

(** Every directory found at [currentDepth] or below carries a depth
    between [currentDepth] and [maxDepth]. *)
Lemma discovered_depth dir :
  forall dirPath maxDepth currentDepth,
    Forall (fun d => currentDepth <= depth d <= maxDepth)
           (discovered dirPath dir maxDepth currentDepth).
Proof.
  induction dir as [size | items IH | message | message] using node_induction;
    intros dirPath maxDepth currentDepth;
    try (simpl; destruct (currentDepth >? maxDepth); constructor).
  rewrite discovered_Dir.
  destruct (currentDepth >? maxDepth) eqn:Hgt; [constructor |].
  rewrite Z.gtb_ltb in Hgt. apply Z.ltb_ge in Hgt.
  apply Forall_flat_map. eapply Forall_impl; [| exact IH].
  intros [item stats] Hrec. simpl in Hrec. unfold discoveredItem.
  assert (Hbelow : Forall (fun d => currentDepth <= depth d <= maxDepth)
                     (discovered (path_join dirPath item) stats maxDepth
                                 (currentDepth + 1))).
  { eapply Forall_impl; [| apply Hrec]. simpl. intros d Hd. lia. }
  destruct stats; try constructor; simpl; try lia; exact Hbelow.
Qed.

(** A call deeper than [maxDepth] returns at once. *)
Lemma listDirectoryContents_beyond dirPath prefix dir maxDepth currentDepth topCount :
  maxDepth < currentDepth ->
  listDirectoryContents dirPath prefix dir maxDepth currentDepth topCount
  = ([], []).
Proof.
  intros Hdeep.
  assert (Hgt : (currentDepth >? maxDepth) = true)
    by (rewrite Z.gtb_ltb; apply Z.ltb_lt; lia).
  destruct dir; simpl; now rewrite Hgt.
Qed.

(** What the root call returns was found by the scan. *)
Lemma report_found dirPath prefix dir maxDepth topCount d :
  In d (fst (listDirectoryContents dirPath prefix dir maxDepth 0 topCount)) ->
  In d (discovered dirPath dir maxDepth 0).
Proof.
  rewrite listDirectoryContents_top.
  destruct (Array_slice0_firstn topCount
              (Array_sort bySizeDescending (discovered dirPath dir maxDepth 0)))
    as [n ->].
  intros Hin. apply firstn_In in Hin.
  eapply Permutation_in; [| exact Hin].
  apply Permutation_sym, Array_sort_perm.
Qed.

(** C5: with [maxDepth = 1] the walker returns no node of a depth above 1;
    the depth of a node is the depth of the call that found it, and a call
    deeper than [maxDepth] returns nothing. *)
Theorem walker_depth_bound dirPath prefix dir topCount :
  Forall (fun d => 0 <= depth d <= 1)
         (fst (listDirectoryContents dirPath prefix dir 1 0 topCount)).
Proof.
  apply Forall_forall. intros d Hin. apply report_found in Hin.
  pose proof (discovered_depth dir dirPath 1 0) as Hdepth.
  rewrite Forall_forall in Hdepth. now apply Hdepth.
Qed.

(** The bound is reached: the scenario of the spec has a node of depth 1. *)
Example depth_one_is_reached :
  map (fun d => (name d, depth d))
      (fst (listDirectoryContents "/root" "" scenario 1 0 10))
  = [("b", 0); ("c", 1); ("a", 0)].
Proof. reflexivity. Qed.

(** C6: in the report a node stands before every node of a smaller size,
    the nodes of one size stand in the order of their discovery, and the
    lines are printed in the order of the array. *)
Theorem report_ranking dirPath prefix dir maxDepth topCount :
  let report :=
    fst (listDirectoryContents dirPath prefix dir maxDepth 0 topCount) in
  let found := discovered dirPath dir maxDepth 0 in
  (forall a b, In a report -> In b report -> size b < size a ->
               before report a b)
  /\ (forall s, beginsWith (filter (ofSize s) found) (filter (ofSize s) report))
  /\ (0 <= maxDepth ->
      exists out,
        snd (listDirectoryContents dirPath prefix dir maxDepth 0 topCount)
        = (out ++ Log (nl ++ "📊 Top " ++ string_of_Z topCount
                       ++ " directories by size:" ++ nl)
               :: forEachIndexed reportLine 0 report)%list).
Proof.
  intros report found. subst report found.
  rewrite listDirectoryContents_top.
  destruct (Array_slice0_firstn topCount
              (Array_sort bySizeDescending (discovered dirPath dir maxDepth 0)))
    as [n Hslice].
  repeat split.
  - intros a b Ha Hb Hsize. rewrite Hslice in *.
    apply sorted_before with (R := inOrder bySizeDescending); trivial.
    + intros x. unfold inOrder, bySizeDescending. lia.
    + apply StronglySorted_firstn, Array_sort_sorted.
      * apply bySizeDescending_total.
      * apply bySizeDescending_trans.
    + unfold inOrder, bySizeDescending. lia.
  - intros s. rewrite Hslice.
    rewrite <- (Array_sort_stable bySizeDescending (ofSize s)
                  (discovered dirPath dir maxDepth 0)).
    + apply filter_firstn_begins.
    + unfold bySizeDescending, ofSize. intros x y Hxy Hx.
      apply Z.eqb_eq in Hx. apply Z.eqb_neq. lia.
  - intros Hmax.
    destruct (listDirectoryContents_root dirPath prefix dir maxDepth topCount Hmax)
      as [out ->].
    exists out. reflexivity.
Qed.

Lemma report_ranking_witness :
  before (fst (listDirectoryContents "/root" "" scenario 1 0 10))
         {| name := "b"; path := "/root/b"; relativePath := "b";
            size := 200; depth := 0 |}
         {| name := "a"; path := "/root/a"; relativePath := "a";
            size := 100; depth := 0 |}.
Proof.
  apply (proj1 (report_ranking "/root" "" scenario 1 10)).
  - vm_compute. left. reflexivity.
  - vm_compute. right. right. left. reflexivity.
  - simpl. lia.
Defined.

(** C1: [maxDepth = 0] does not lift the bound. The root call passes the
    test [currentDepth > maxDepth] and every call below it fails it, so only
    the immediate subdirectories are returned: on the scenario of the spec
    the nodes are [b] and [a], and [c] is not found. *)
Theorem maxDepth_zero_scans_one_level :
  (forall dirPath prefix dir topCount,
      Forall (fun d => depth d = 0)
             (fst (listDirectoryContents dirPath prefix dir 0 0 topCount)))
  /\ map (fun d => (name d, size d, depth d))
         (fst (listDirectoryContents "/root" "" scenario 0 0 2))
     = [("b", 200, 0); ("a", 100, 0)]
  /\ getDirectorySizes scenarioHost
       {| directory := None; maxDepth := Some 0; topCount := Some 2 |}
     = (Ok true,
        [Log "📂 Scanning directory: /root"; Log "🔍 Max depth: 0"; Log "";
         Log (nl ++ "📊 Top 2 directories by size:" ++ nl);
         Log " 1. 📁 b (200 B)"; Log " 2. 📁 a (100 B)";
         Log "📊 Total directory size: 300 B"; Log "";
         Log "⏱️  Scan completed in 1ms"]).
Proof.
  split; [| split; reflexivity].
  intros dirPath prefix dir topCount.
  apply Forall_forall. intros d Hin. apply report_found in Hin.
  pose proof (discovered_depth dir dirPath 0 0) as Hdepth.
  rewrite Forall_forall in Hdepth. apply Hdepth in Hin. lia.
Qed.

Lemma sumZ_perm l l' : Permutation l l' -> sumZ l = sumZ l'.
Proof.
  induction 1; simpl; lia.
Qed.

(** Sizes that are not negative and add up to less than 2^53 are added
    exactly. *)
Lemma totalSizeOf_sum directories :
  Forall (fun d => 0 <= size d) directories ->
  sumZ (map size directories) < 2 ^ 53 ->
  totalSizeOf directories = sumZ (map size directories).
Proof.
  intros Hsizes Hsum. unfold totalSizeOf.
  rewrite (fold_left_jsAdd_sum size) by (trivial; lia). lia.
Qed.

Lemma console_tail (a b c t e s : Line) (scan : list Line) :
  ([a] ++ [b] ++ [c] ++ scan ++ [t] ++ [e] ++ [s] ++ [])%list
  = (([a; b; c] ++ scan) ++ [t; e; s])%list.
Proof.
  reflexivity.
Qed.

(** The total [getDirectorySizes] prints is the sum over the array the
    root call returns, that is over the top [topCount] of the ranking. *)
Lemma getDirectorySizes_total host options stats :
  let directory := orDefault (directory options) "." in
  let maxDepth := orDefault (maxDepth options) 2 in
  let topCount := orDefault (topCount options) 10 in
  lookup host directory = Some stats ->
  directoryNode stats ->
  0 <= maxDepth ->
  exists out,
    getDirectorySizes host options
    = (Ok true,
       (out ++
        [Log ("📊 Total directory size: "
              ++ formatBytes
                   (totalSizeOf
                      (Array_slice0 topCount
                         (Array_sort bySizeDescending
                            (discovered (resolve host directory) stats
                                        maxDepth 0)))));
         Log "";
         Log ("⏱️  Scan completed in "
              ++ string_of_Z (now host 1 - now host 0) ++ "ms")])%list).
Proof.
  intros directory maxDepth topCount Hlookup Hdir Hmax.
  unfold getDirectorySizes. cbv zeta.
  fold directory maxDepth topCount. rewrite Hlookup.
  destruct (listDirectoryContents_root (resolve host directory) "" stats
              maxDepth topCount Hmax) as [out Hroot].
  destruct stats as [size | items | message | message]; try contradiction.
  - cbn [exists_node negb stat_target]. rewrite bind_ret.
    cbn [isDirectory]. rewrite bind_ret. cbn [negb]. unfold emitting.
    rewrite Hroot. cbv [bind ret console tryCatch fst snd].
    eexists. f_equal. apply console_tail.
  - cbn [exists_node negb stat_target]. rewrite bind_ret.
    cbn [isDirectory]. rewrite bind_ret. cbn [negb]. unfold emitting.
    rewrite Hroot. cbv [bind ret console tryCatch fst snd].
    eexists. f_equal. apply console_tail.
Qed.

(** When [topCount] is not below the number of directories found, and
    their sizes are not negative and add up to less than 2^53, the total is
    the sum over all of them. *)
Lemma total_of_full_report topCount found :
  Forall (fun d => 0 <= size d) found ->
  sumZ (map size found) < 2 ^ 53 ->
  Z.of_nat (List.length found) <= topCount ->
  totalSizeOf (Array_slice0 topCount (Array_sort bySizeDescending found))
  = sumZ (map size found).
Proof.
  intros Hsizes Hsum Hlen.
  pose proof (Array_sort_perm bySizeDescending found) as Hperm.
  assert (Hsame : sumZ (map size (Array_sort bySizeDescending found))
                  = sumZ (map size found)).
  { symmetry. apply sumZ_perm. now apply Permutation_map. }
  rewrite Array_slice0_all.
  - rewrite totalSizeOf_sum; [exact Hsame | | rewrite Hsame; exact Hsum].
    eapply Permutation_Forall; [exact Hperm | exact Hsizes].
  - rewrite <- (Permutation_length Hperm). exact Hlen.
Qed.

(** C2: the total is taken over the array the root call returns, which is
    already cut to [topCount]. With two directories of 100 and 200 bytes
    and [topCount = 1] the scan finds both, 300 bytes in all, and the total
    printed is 200 B. *)
Theorem total_is_over_the_displayed_nodes :
  map (fun d => (name d, size d)) (discovered "/root" twoDirectories 2 0)
  = [("a", 100); ("b", 200)]
  /\ totalSizeOf (discovered "/root" twoDirectories 2 0) = 300
  /\ getDirectorySizes twoDirectoriesHost
       {| directory := None; maxDepth := None; topCount := Some 1 |}
     = (Ok true,
        [Log "📂 Scanning directory: /root"; Log "🔍 Max depth: 2"; Log "";
         Log (nl ++ "📊 Top 1 directories by size:" ++ nl);
         Log " 1. 📁 b (200 B)";
         Log "📊 Total directory size: 200 B"; Log "";
         Log "⏱️  Scan completed in 1ms"]).
Proof. repeat split. Qed.

(** C3: the [try] of [getSize] holds the whole loop, and the [statSync] of
    an entry is outside the [try] of that entry's call. An entry that cannot
    be stat'ed therefore ends the loop of its parent, and the entries after
    it are not counted: with a dangling link before a file of 100 bytes the
    size is 0, with the link after the file it is 100. The directory that
    cannot be listed counts for 0 with a warning in both. *)
Theorem getSize_stops_at_unstatable_entry :
  getSize "/root" danglingBeforeFile
  = (Ok 0,
     [cannotReadDirectory "/root/locked" "EACCES: permission denied";
      cannotReadDirectory "/root" "ENOENT: no such file or directory"])
  /\ getSize "/root" danglingAfterFile
     = (Ok 100,
        [cannotReadDirectory "/root/locked" "EACCES: permission denied";
         cannotReadDirectory "/root" "ENOENT: no such file or directory"])
  /\ getSize "/root/link" (StatFails "ENOENT: no such file or directory")
     = (Throw "ENOENT: no such file or directory", []).
Proof. repeat split. Qed.

(** The unit [formatBytes] picks up to 1023 * 1024^4 bytes: the largest of
    the five whose scaled value is at least 1. *)
Lemma formatBytes_unit bytes :
  0 < bytes <= 1023 * 1024 ^ 4 ->
  exists i,
    0 <= i < 5
    /\ 1024 ^ i <= bytes < 1024 ^ (i + 1)
    /\ formatBytes bytes
       = toFixed2 bytes (1024 ^ i) ++ " " ++ nth (Z.to_nat i) sizes "undefined"
    /\ In (nth (Z.to_nat i) sizes "undefined") sizes.
Proof.
  intros [Hpos Hle].
  assert (Hlt : bytes < 1024 ^ 5)
    by (change (1024 ^ 5) with (1024 * 1024 ^ 4); lia).
  exists (unitIndex bytes). unfold unitIndex.
  destruct (Z.log2_spec bytes Hpos) as [Hlow Hhigh].
  pose proof (Z.log2_nonneg bytes) as Hlog.
  assert (Hbound : Z.log2 bytes < 50).
  { apply (Z.pow_lt_mono_r_iff 2); [lia | lia |].
    change (2 ^ 50) with (1024 ^ 5). lia. }
  set (L := Z.log2 bytes) in *.
  assert (Hi : 0 <= L / 10 < 5).
  { split; [apply Z.div_pos; lia | apply Z.div_lt_upper_bound; lia]. }
  assert (Hpow : forall k, 0 <= k -> 1024 ^ k = 2 ^ (10 * k)).
  { intros k Hk. change 1024 with (2 ^ 10). rewrite <- Z.pow_mul_r; lia. }
  pose proof (Z.mul_div_le L 10 ltac:(lia)) as Hdown.
  pose proof (Z.mul_succ_div_gt L 10 ltac:(lia)) as Hup.
  repeat split; try lia.
  - rewrite Hpow by lia.
    apply Z.le_trans with (2 ^ L); [apply Z.pow_le_mono_r; lia | lia].
  - rewrite Hpow by lia.
    apply Z.lt_le_trans with (2 ^ Z.succ L); [lia |].
    apply Z.pow_le_mono_r; lia.
  - unfold formatBytes, unitIndex. fold L.
    replace (bytes =? 0) with false by (symmetry; apply Z.eqb_neq; lia).
    replace (bytes <? 0) with false by (symmetry; apply Z.ltb_ge; lia).
    reflexivity.
  - assert (Hcases : L / 10 = 0 \/ L / 10 = 1 \/ L / 10 = 2 \/ L / 10 = 3
                     \/ L / 10 = 4) by lia.
    destruct Hcases as [-> | [-> | [-> | [-> | ->]]]]; simpl; tauto.
Qed.

(** C7: the three values of the spec are as stated, and up to
    1023 * 1024^4 bytes the unit is the largest that fits
    ([formatBytes_unit]). From 1024^5 bytes on the index is 5 or more and
    the table of units has no entry there: 2^51 bytes are printed as
    [2 undefined]. *)
Theorem formatBytes_past_terabytes :
  formatBytes 0 = "0 B"
  /\ formatBytes 1536 = "1.5 KB"
  /\ formatBytes 1048576 = "1 MB"
  /\ formatBytes (2 ^ 51) = "2 undefined".
Proof. repeat split. Qed.

End ReportClaims.

(** ** The exec command *)

Module ExecFacts.
Import ExecCommand Dispatch.

Lemma includes_In l s : includes l s = true <-> In s l.
Proof.
  unfold includes. rewrite existsb_exists. split.
  - intros (x & Hin & Heq). apply String.eqb_eq in Heq. now subst.
  - intros Hin. exists s. split; [exact Hin | apply String.eqb_refl].
Qed.

Lemma subdirectoryItem_value recurse found dirPath item stats directories :
  fst (recurse (path_join dirPath item) stats)
  = found (path_join dirPath item) stats ->
  exists out,
    subdirectoryItem recurse dirPath (item, stats) directories
    = (Ok (directories ++ qualifyingItem found dirPath (item, stats))%list, out).
Proof.
  intros Hrec. unfold subdirectoryItem, qualifyingItem.
  destruct stats as [size | items | message | message];
    cbn [isDirectory]; try rewrite bind_ret.
  - simpl. rewrite app_nil_r. eauto.
  - destruct (includes skipDirs item); cbn [negb].
    + simpl. rewrite app_nil_r. eauto.
    + unfold bind, emitting, ret, tryCatch. simpl.
      rewrite Hrec. rewrite <- app_assoc. simpl. eauto.
  - destruct (includes skipDirs item); cbn [negb].
    + simpl. rewrite app_nil_r. eauto.
    + unfold bind, emitting, ret, tryCatch. simpl.
      rewrite Hrec. rewrite <- app_assoc. simpl. eauto.
  - simpl. rewrite app_nil_r. eauto.
Qed.

Lemma getSubdirectories_Dir dirPath items maxDepth currentDepth :
  getSubdirectories dirPath (Dir items) maxDepth currentDepth
  = if currentDepth >? maxDepth then ([], [])
    else
      let '(directories, attempt) :=
        forOf (subdirectoryItem
                 (fun itemPath stats =>
                    getSubdirectories itemPath stats maxDepth (currentDepth + 1))
                 dirPath)
              items [] in
      let '(_, out) :=
        tryCatch attempt
          (fun e => console (Warn ("Warning: Cannot read directory " ++ dirPath
                                   ++ ": " ++ e))) in
      (directories, out).
Proof. reflexivity. Qed.

Lemma qualifying_Dir dirPath items maxDepth currentDepth :
  qualifying dirPath (Dir items) maxDepth currentDepth
  = if currentDepth >? maxDepth then []
    else flat_map (qualifyingItem
                     (fun itemPath stats =>
                        qualifying itemPath stats maxDepth (currentDepth + 1))
                     dirPath)
                  items.
Proof. reflexivity. Qed.

(** [getSubdirectories] returns the qualifying directories in discovery
    order. *)
Lemma getSubdirectories_qualifying maxDepth dir :
  forall dirPath currentDepth,
    fst (getSubdirectories dirPath dir maxDepth currentDepth)
    = qualifying dirPath dir maxDepth currentDepth.
Proof.
  induction dir as [size | items IH | message | message] using node_induction;
    intros dirPath currentDepth;
    try (simpl; destruct (currentDepth >? maxDepth); reflexivity).
  rewrite getSubdirectories_Dir, qualifying_Dir.
  destruct (currentDepth >? maxDepth); [reflexivity |].
  edestruct (forOf_total
               (subdirectoryItem
                  (fun itemPath stats =>
                     getSubdirectories itemPath stats maxDepth (currentDepth + 1))
                  dirPath)
               (fun acc entry =>
                  (acc ++ qualifyingItem
                            (fun itemPath stats =>
                               qualifying itemPath stats maxDepth
                                          (currentDepth + 1))
                            dirPath entry)%list)
               items) with (s := @nil string) as [out Hloop].
  - eapply Forall_impl; [| exact IH].
    intros [item stats] Hrec directories. apply subdirectoryItem_value.
    apply Hrec.
  - rewrite Hloop, fold_left_app_flat_map. reflexivity.
Qed.

(** The list [qualifying] holds the paths that [Qualifies] describes. *)
Lemma qualifying_sound maxDepth dir :
  forall dirPath currentDepth p,
    In p (qualifying dirPath dir maxDepth currentDepth) ->
    Qualifies maxDepth dirPath dir currentDepth p.
Proof.
  induction dir as [size | items IH | message | message] using node_induction;
    intros dirPath currentDepth p;
    try (simpl; destruct (currentDepth >? maxDepth); contradiction).
  rewrite qualifying_Dir.
  destruct (currentDepth >? maxDepth) eqn:Hgt; [contradiction |].
  rewrite Z.gtb_ltb in Hgt. apply Z.ltb_ge in Hgt.
  rewrite in_flat_map. intros ([item stats] & Hentry & Hin).
  rewrite Forall_forall in IH. specialize (IH _ Hentry). simpl in IH.
  unfold qualifyingItem in Hin.
  assert (Hcase : entryQualifies stats item p
                    (qualifying (path_join dirPath item) stats maxDepth
                                (currentDepth + 1)) dirPath).
  { destruct stats; try contradiction;
      (destruct (includes skipDirs item) eqn:Hskip; [contradiction |]);
      (split; [exact I |]); (split; [| exact Hin]);
      intros Hdeny; apply includes_In in Hdeny; congruence. }
  destruct Hcase as (Hdir & Hdeny & [<- | Hbelow]).
  - now apply qualifies_here with stats.
  - apply qualifies_below with item stats; auto.
Qed.


(** *** The entry [package.json] of a directory *)

Lemma hasSeparator_append a b : hasSeparator (a ++ String "/" b) = true.
Proof.
  induction a as [| c a IH]; simpl; [reflexivity |].
  rewrite IH. apply orb_true_r.
Qed.

(** A path is joined from one directory and one name only. *)
Lemma path_join_inj dirPath item p name :
  hasSeparator item = false ->
  hasSeparator name = false ->
  path_join dirPath item = path_join p name ->
  dirPath = p /\ item = name.
Proof.
  unfold path_join. intros Hitem Hname.
  change ("/" ++ item)%string with (String "/" item).
  change ("/" ++ name)%string with (String "/" name).
  revert p. induction dirPath as [| c d IH]; intros [| c' p]; simpl; intros Heq.
  - injection Heq as ->. now split.
  - injection Heq as <- ->.
    now rewrite hasSeparator_append in Hitem.
  - injection Heq as -> <-.
    now rewrite hasSeparator_append in Hname.
  - injection Heq as -> Heq. destruct (IH p Heq) as [-> ->]. now split.
Qed.

Lemma entriesBelow_Dir dirPath items :
  entriesBelow dirPath (Dir items)
  = flat_map (fun '(item, stats) =>
                (path_join dirPath item, stats)
                :: entriesBelow (path_join dirPath item) stats)
             items.
Proof. reflexivity. Qed.

(** An entry of the tree is an entry of the directory at the path it was
    joined to. *)
Lemma entriesBelow_parent root :
  forall dirPath p name found,
    plainNames root = true ->
    hasSeparator name = false ->
    In (path_join p name, found) (entriesBelow dirPath root) ->
    exists items, NodeAt dirPath root p (Dir items) /\ In (name, found) items.
Proof.
  induction root as [size | items IH | message | message] using node_induction;
    intros dirPath p name found Hplain Hname Hin; try destruct Hin.
  rewrite entriesBelow_Dir in Hin. apply in_flat_map in Hin.
  destruct Hin as ([item stats] & Hentry & Hin).
  cbn [plainNames] in Hplain. rewrite forallb_forall in Hplain.
  specialize (Hplain _ Hentry). cbn beta iota in Hplain.
  apply andb_true_iff in Hplain as [Hitem Hstats].
  apply negb_true_iff in Hitem.
  destruct Hin as [Heq | Hin].
  - injection Heq as Hpath ->.
    destruct (path_join_inj _ _ _ _ Hitem Hname Hpath) as [-> ->].
    exists items. split; [apply at_top | exact Hentry].
  - rewrite Forall_forall in IH.
    destruct (IH _ Hentry _ _ _ _ Hstats Hname Hin) as (items' & Hat & Hin').
    exists items'. split; [| exact Hin'].
    now apply at_entry with item stats.
Qed.

Lemma NodeAt_entriesBelow dirPath root p items name found :
  NodeAt dirPath root p (Dir items) ->
  In (name, found) items ->
  In (path_join p name, found) (entriesBelow dirPath root).
Proof.
  intros Hat Hin. remember (Dir items) as dir eqn:Hdir.
  induction Hat as [dirPath dir | dirPath items' item stats p dir Hentry _ IH].
  - subst dir. rewrite entriesBelow_Dir. apply in_flat_map.
    exists (name, found). split; [exact Hin | now left].
  - rewrite entriesBelow_Dir. apply in_flat_map.
    exists (item, stats). split; [exact Hentry | right; now apply IH].
Qed.

(** [hasPackageJson] is true of the paths of the directories that list an
    entry [package.json] that can be stat'ed. *)
Lemma hasPackageJson_on_tree absolutePath root p :
  plainNames root = true ->
  hasPackageJson absolutePath root p = true
  <-> holdsPackageJson absolutePath root p.
Proof.
  intros Hplain. unfold hasPackageJson, existsSync, holdsPackageJson.
  rewrite existsb_exists. split.
  - intros ([q child] & Hin & Hfound).
    apply andb_true_iff in Hfound as [Hpath Hexists].
    apply String.eqb_eq in Hpath. subst q.
    destruct (entriesBelow_parent root absolutePath p "package.json" child
                Hplain eq_refl Hin)
      as (items & Hat & Hentry).
    exists items, child. repeat split; trivial.
    now destruct child.
  - intros (items & child & Hat & Hentry & Hstat).
    exists (path_join p "package.json", child). split.
    + now apply NodeAt_entriesBelow with items.
    + rewrite String.eqb_refl. now destruct child.
Qed.

End ExecFacts.

Module DispatchFacts.
Import ExecCommand Dispatch ExecFacts.

Section Machine.
Variable World : Type.
Variable execSync : string -> string -> World -> ExecOutcome * World.

Lemma executeCommand_resultOf command dirPath w :
  executeCommand World execSync command dirPath w
  = (ret (resultOf (fst (execSync command dirPath w))),
     snd (execSync command dirPath w)).
Proof.
  unfold executeCommand.
  destruct (execSync command dirPath w) as [[stdout | [[| c s] |] message] w'];
    reflexivity.
Qed.

(** The loop runs the command in every target directory, in order, and
    keeps one result for each. *)
Lemma processEach_runs exec absolutePath dirs :
  forall results w,
    processEach World execSync exec absolutePath dirs results w
    = ((Ok (results
            ++ map (processedOf absolutePath)
                   (fst (runEach World execSync exec dirs w)))%list,
        map (processingLine absolutePath) dirs),
       snd (runEach World execSync exec dirs w)).
Proof.
  induction dirs as [| dir dirs IH]; intros results w;
    cbn [processEach runEach].
  - unfold io_ret, ret. cbn [fst snd map]. now rewrite app_nil_r.
  - unfold io_bind, lift, console. rewrite executeCommand_resultOf.
    unfold ret. rewrite IH.
    destruct (execSync exec dir w) as [outcome w']. cbn [fst snd].
    destruct (runEach World execSync exec dirs w') as [outcomes w''].
    cbn [fst snd map app]. rewrite <- app_assoc. reflexivity.
Qed.

Lemma runEach_directories command dirs w :
  map fst (fst (runEach World execSync command dirs w)) = dirs.
Proof.
  revert w; induction dirs as [| dir dirs IH]; intros w; simpl.
  - reflexivity.
  - destruct (execSync command dir w) as [outcome w'].
    specialize (IH w').
    destruct (runEach World execSync command dirs w') as [outcomes w''].
    simpl in *. now rewrite IH.
Qed.

(** On the recording machine the outcomes are those of the machine itself,
    and the directories are recorded in the order of the calls. *)
Lemma runEach_recording command dirs :
  forall w calls,
    runEach (World * list string) (recording World execSync) command dirs
            (w, calls)
    = (fst (runEach World execSync command dirs w),
       (snd (runEach World execSync command dirs w), (calls ++ dirs)%list)).
Proof.
  induction dirs as [| dir dirs IH]; intros w calls; simpl.
  - now rewrite app_nil_r.
  - unfold recording at 1. simpl.
    destruct (execSync command dir w) as [outcome w'].
    rewrite IH.
    destruct (runEach World execSync command dirs w') as [outcomes w''].
    simpl. now rewrite <- app_assoc.
Qed.
End Machine.

Lemma displayResult_counts absolutePath run successCount failureCount :
  fst (displayResult (processedOf absolutePath run) (successCount, failureCount))
  = (successCount + (if succeeded run then 1 else 0),
     failureCount + (if succeeded run then 0 else 1)).
Proof.
  destruct run as [dir [stdout | stdout message]];
    unfold displayResult, processedOf, succeeded;
    cbn [result resultOf success snd fst]; f_equal; lia.
Qed.

Lemma displayResults_counts absolutePath runs :
  forall successCount failureCount,
    fst (displayResults (map (processedOf absolutePath) runs)
                        (successCount, failureCount))
    = (successCount + countZ succeeded runs, failureCount + countZ failed runs).
Proof.
  unfold countZ, failed.
  induction runs as [| run runs IH]; intros successCount failureCount.
  - simpl. f_equal; lia.
  - cbn [map displayResults].
    pose proof (displayResult_counts absolutePath run successCount failureCount)
      as Hstep.
    destruct (displayResult (processedOf absolutePath run)
                            (successCount, failureCount)) as [counts out].
    cbn [fst] in Hstep. subst counts.
    specialize (IH (successCount + (if succeeded run then 1 else 0))
                   (failureCount + (if succeeded run then 0 else 1))).
    destruct (displayResults (map (processedOf absolutePath) runs) _)
      as [counts out'].
    cbn [fst] in *. subst counts. cbn [filter].
    destruct (succeeded run); cbn [negb List.length]; f_equal; lia.
Qed.

Lemma counts_add_up {A} (f : A -> bool) (l : list A) :
  countZ f l + countZ (fun x => negb (f x)) l = Z.of_nat (List.length l).
Proof.
  unfold countZ. induction l as [| x l IH]; cbn [filter List.length].
  - reflexivity.
  - destruct (f x); cbn [negb List.length]; lia.
Qed.

Section Handler.
Variable World : Type.
Variable execSync : string -> string -> World -> ExecOutcome * World.

(** On a directory the handler scans, runs the command in every target and
    returns [true] after the summary. *)
Lemma execCommand_on_directory host options stats w :
  lookup host (orDefault (directory options) ".") = Some stats ->
  Walk.directoryNode stats ->
  let runs :=
    runEach World execSync (exec options) (targetsOf host options stats) w in
  exists out,
    execCommand World execSync host options w
    = ((Ok true,
        (out ++ [summaryLine (countZ succeeded (fst runs))
                             (countZ failed (fst runs));
                 completedLine host])%list),
       snd runs).
Proof.
  intros Hlookup Hdir runs. subst runs. unfold targetsOf, execCommand.
  cbv zeta. rewrite Hlookup.
  set (dir := orDefault (directory options) ".") in *.
  set (absolutePath := resolve host dir).
  set (depth := orDefault (maxDepth options) 2).
  set (scan := getSubdirectories absolutePath stats depth 0).
  set (targets := targetDirectoriesOf absolutePath stats (packageName options)
                    (fst scan)).
  assert (Hstat : exists_node (Some stats) = true
                  /\ stat_target (Some stats) = ret stats
                  /\ isDirectory stats = ret true).
  { destruct stats; try contradiction; repeat split. }
  destruct Hstat as (-> & -> & Hisdir).
  cbv [io_tryCatch io_bind lift negb ret].
  rewrite Hisdir.
  cbv [io_tryCatch io_bind lift negb ret log logError io_ret console emitting].
  fold scan. fold targets.
  destruct (truthy (packageName options));
    rewrite processEach_runs; cbn [app];
    pose proof (displayResults_counts absolutePath
                  (fst (runEach World execSync (exec options) targets w)) 0 0)
      as Hcounts;
    destruct (displayResults _ (0, 0)) as [[successCount failureCount] lines];
    cbn [fst snd] in *; injection Hcounts as -> ->;
    apply ends_result; rewrite ?Z.add_0_l; unfold completedLine;
    ends_with_tail.
Qed.

(** Anything else is turned down before a command is run. *)
Lemma execCommand_not_on_directory host options w :
  (forall stats, lookup host (orDefault (directory options) ".") = Some stats ->
                 ~ Walk.directoryNode stats) ->
  exists line,
    execCommand World execSync host options w = ((Ok false, [Error line]), w).
Proof.
  intros Hnot. unfold execCommand. cbv zeta.
  destruct (lookup host (orDefault (directory options) "."))
    as [[size | items | message | message] |] eqn:Hlookup;
    try (exfalso; eapply Hnot; [reflexivity | exact I]);
    eexists; reflexivity.
Qed.
End Handler.

End DispatchFacts.

(** ** Claims on the exec command *)

Module ExecClaims.
Import ExecCommand Dispatch ExecFacts DispatchFacts.

Lemma dispatchedTo_targets World execSync host options stats w :
  lookup host (orDefault (directory options) ".") = Some stats ->
  Walk.directoryNode stats ->
  dispatchedTo World execSync host options w = targetsOf host options stats.
Proof.
  intros Hlookup Hdir. unfold dispatchedTo.
  destruct (execCommand_on_directory (World * list string)
              (recording World execSync) host options stats (w, [])
              Hlookup Hdir) as [out ->].
  cbn [snd]. now rewrite runEach_recording.
Qed.



(** The directory [/r/y] is found and lists no [package.json]: with a
    package name the command is not run in it. *)
Example workspace_without_package :
  Qualifies 2 "/r" workspace 0 "/r/y"
  /\ ~ holdsPackageJson "/r" workspace "/r/y"
  /\ ~ In "/r/y" (dispatchedTo unit failsInX workspaceHost
                               (execIn 2 (Some "pkg")) tt)
  /\ In "/r/y" (dispatchedTo unit failsInX workspaceHost (execIn 2 None) tt).
Proof.
  split; [| split; [| split]].
  - apply qualifying_sound. vm_compute. right. left. reflexivity.
  - intros Hholds.
    apply (hasPackageJson_on_tree "/r" workspace "/r/y" eq_refl) in Hholds.
    discriminate Hholds.
  - vm_compute. intuition discriminate.
  - vm_compute. right. left. reflexivity.
Qed.

(** The package below [node_modules] is not reached, and without a package
    name every qualifying directory is a target. *)
Example workspace_targets :
  dispatchedTo unit failsInX workspaceHost (execIn 2 (Some "pkg")) tt
  = ["/r/x"; "/r/y/z"]
  /\ dispatchedTo unit failsInX workspaceHost (execIn 2 None) tt
     = ["/r/x"; "/r/y"; "/r/y/z"]
  /\ dispatchedTo unit failsInX workspaceHost (execIn 0 None) tt
     = ["/r/x"; "/r/y"].
Proof. repeat split. Qed.

(** C4: the command is run in every target directory, once and in order,
    whatever it returned in the directories before; a failure is kept as a
    result with [success = false], the captured output (the message where
    there is none) and the message; the summary counts the runs that
    succeeded and those that failed, and the handler returns [true]. *)
Theorem failures_are_isolated World execSync host options stats w :
  let directory := orDefault (directory options) "." in
  let absolutePath := resolve host directory in
  let targets := targetsOf host options stats in
  let runs := runEach World execSync (exec options) targets w in
  lookup host directory = Some stats ->
  Walk.directoryNode stats ->
  dispatchedTo World execSync host options w = targets
  /\ processEach World execSync (exec options) absolutePath targets [] w
     = ((Ok (map (processedOf absolutePath) (fst runs)),
         map (processingLine absolutePath) targets), snd runs)
  /\ map fst (fst runs) = targets
  /\ (forall dir stdout message,
         In (dir, Failed stdout message) (fst runs) ->
         In {| processedDirectory := dir;
               processedRelativePath := path_relative absolutePath dir;
               result :=
                 {| success := false;
                    output := trim (match stdout with
                                    | Some (String c s) => String c s
                                    | _ => message
                                    end);
                    error := Some message |} |}
            (map (processedOf absolutePath) (fst runs)))
  /\ countZ succeeded (fst runs) + countZ failed (fst runs)
     = Z.of_nat (List.length targets)
  /\ exists out,
       execCommand World execSync host options w = ((Ok true, out), snd runs)
       /\ endsWithLines out
            [summaryLine (countZ succeeded (fst runs))
                         (countZ failed (fst runs));
             completedLine host].
Proof.
  intros directory absolutePath targets runs Hlookup Hdir.
  subst runs targets directory.
  repeat split.
  - now apply dispatchedTo_targets.
  - now rewrite processEach_runs.
  - apply runEach_directories.
  - intros dir stdout message Hin.
    apply (in_map (processedOf absolutePath)) in Hin. exact Hin.
  - unfold failed. rewrite counts_add_up.
    rewrite <- (runEach_directories World execSync (exec options)
                  (targetsOf host options stats) w) at 2.
    now rewrite length_map.
  - destruct (execCommand_on_directory World execSync host options stats w
                Hlookup Hdir) as [before Hrun].
    eexists. split; [exact Hrun |]. now exists before.
Qed.

Lemma failures_are_isolated_witness :
  exists out,
    execCommand unit failsInX workspaceHost (execIn 0 None) tt
    = ((Ok true, out), tt)
    /\ endsWithLines out [Log "📈 Summary: 1 successful, 1 failed";
                          Log "⏱️  Completed in 1ms"].
Proof.
  destruct (failures_are_isolated unit failsInX workspaceHost (execIn 0 None)
              workspace tt eq_refl I)
    as (_ & _ & _ & _ & _ & out & Hrun & Hends).
  exists out. split; [exact Hrun | exact Hends].
Defined.

(** The run of the witness: [/r/x] fails, [/r/y] succeeds all the same. *)
Example workspace_one_failure :
  execCommand unit failsInX workspaceHost (execIn 0 None) tt
  = ((Ok true,
      [Log "📂 Scanning directory: /r"; Log "🔍 Max depth: 0";
       Log "⚡ Command: false"; Log "";
       Log ("Found 2 directories to process" ++ nl);
       Log "🔄 Processing: x"; Log "🔄 Processing: y";
       Log (nl ++ "📊 Results:" ++ nl);
       Log "❌ x"; Log "   Error: Command failed: false"; Log "   partial";
       Log "";
       Log "✅ y"; Log "   ok"; Log "";
       Log "📈 Summary: 1 successful, 1 failed";
       Log "⏱️  Completed in 1ms"]), tt).
Proof. reflexivity. Qed.

(** C10: on a directory the handler returns [true] however many of the
    commands failed; it returns [false], without running a command, exactly
    when the argument names no directory. *)
Theorem execCommand_returns_true_on_a_directory World execSync host options w :
  let target := lookup host (orDefault (directory options) ".") in
  ((exists stats, target = Some stats /\ Walk.directoryNode stats) ->
   exists out w',
     execCommand World execSync host options w = ((Ok true, out), w'))
  /\ ((forall stats, target = Some stats -> ~ Walk.directoryNode stats) ->
      exists line,
        execCommand World execSync host options w = ((Ok false, [Error line]), w)).
Proof.
  intros target. subst target. split.
  - intros (stats & Hlookup & Hdir).
    destruct (execCommand_on_directory World execSync host options stats w
                Hlookup Hdir) as [out ->].
    eauto.
  - apply execCommand_not_on_directory.
Qed.

Lemma execCommand_returns_true_on_a_directory_witness :
  exists out w',
    execCommand unit alwaysFails workspaceHost (execIn 2 None) tt
    = ((Ok true, out), w').
Proof.
  apply (proj1 (execCommand_returns_true_on_a_directory unit alwaysFails
                  workspaceHost (execIn 2 None) tt)).
  exists workspace. split; [reflexivity | exact I].
Defined.

(** Every command of the batch fails and the handler returns [true]. *)
Example execCommand_all_fail :
  fst (execCommand unit alwaysFails workspaceHost (execIn 2 None) tt)
  = (Ok true,
     [Log "📂 Scanning directory: /r"; Log "🔍 Max depth: 2";
      Log "⚡ Command: false"; Log "";
      Log ("Found 3 directories to process" ++ nl);
      Log "🔄 Processing: x"; Log "🔄 Processing: y"; Log "🔄 Processing: y/z";
      Log (nl ++ "📊 Results:" ++ nl);
      Log "❌ x"; Log "   Error: Command failed"; Log "   Command failed"; Log "";
      Log "❌ y"; Log "   Error: Command failed"; Log "   Command failed"; Log "";
      Log "❌ y/z"; Log "   Error: Command failed"; Log "   Command failed";
      Log "";
      Log "📈 Summary: 0 successful, 3 failed";
      Log "⏱️  Completed in 1ms"]).
Proof. reflexivity. Qed.

End ExecClaims.

(** ** Claims on the pack command *)

Module PackClaims.
Import ExecCommand PackCommand Packing.

Section PackMachine.
Variable World : Type.
Variable existsSync : string -> World -> bool.
Variable statSync : string -> World -> Res Stats.
Variable readdirSync : string -> World -> Res (list string).
Variable unlinkSync : string -> World -> Res unit * World.
Variable execSync : string -> option string -> World -> ExecOutcome * World.
Variable path_resolve : string -> string.
Variable path_basename : string -> string.

(** A failed copy is reported and answered with [false]. *)
Lemma copyToClipboard_failed text w stdout message w' :
  execSync (pbcopy text) None w = (Failed stdout message, w') ->
  copyToClipboard World execSync text w
  = ((Ok false, [Error ("Error copying to clipboard: " ++ message)]), w').
Proof.
  intros Hexec. unfold copyToClipboard. now rewrite Hexec.
Qed.

(** C9: when the build and the pack succeed and a tarball is found, a
    failure of the clipboard is not fatal: the command prints the path of
    the tarball instead and returns [true]. *)
Theorem clipboard_failure_is_not_fatal
    directory w stats out0 w1 build out1 w2 pack out2 w3 tarballPath out3 w4
    stdout message w5 :
  let dir := orDefault directory "." in
  let absolutePath := path_resolve dir in
  existsSync dir w = true ->
  statSync dir w = Ok stats ->
  stats_isDirectory stats = true ->
  removeTarballs World readdirSync unlinkSync absolutePath w
  = ((Ok tt, out0), w1) ->
  executeCommand World execSync "pnpm run build" absolutePath w1
  = ((Ok build, out1), w2) ->
  success build = true ->
  executeCommand World execSync "pnpm pack" absolutePath w2
  = ((Ok pack, out2), w3) ->
  success pack = true ->
  findLatestTarball World statSync readdirSync absolutePath w3
  = ((Ok (Some tarballPath), out3), w4) ->
  execSync (pbcopy tarballPath) None w4 = (Failed stdout message, w5) ->
  exists out,
    packCommand World existsSync statSync readdirSync unlinkSync execSync
                path_resolve path_basename directory w
    = ((Ok true, out), w5)
    /\ endsWithLines out
         [Log ("📄 Found tarball: " ++ path_basename tarballPath);
          Error ("Error copying to clipboard: " ++ message);
          Log ("📄 Tarball path: " ++ tarballPath);
          Log "";
          Log "🎉 Pack command completed successfully!"].
Proof.
  intros dir absolutePath Hexists Hstat Hisdir Hremove Hbuild Hbuilt Hpack
         Hpacked Hfind Hcopy.
  apply copyToClipboard_failed in Hcopy.
  unfold packCommand. cbv zeta. fold dir. fold absolutePath.
  cbv [io_tryCatch io_bind lift log logError io_ret console ret reading].
  rewrite Hexists. cbn [negb]. cbv beta iota zeta.
  rewrite Hstat. cbv beta iota zeta.
  rewrite Hisdir. cbn [negb]. cbv beta iota zeta.
  rewrite Hremove. cbv beta iota zeta.
  rewrite Hbuild. cbv beta iota zeta. rewrite Hbuilt. cbn [negb].
  cbv beta iota zeta.
  rewrite Hpack. cbv beta iota zeta. rewrite Hpacked. cbn [negb].
  cbv beta iota zeta.
  rewrite Hfind. cbv beta iota zeta.
  rewrite Hcopy. cbv beta iota zeta.
  eexists. split; [reflexivity |]. ends_with_tail.
Qed.
End PackMachine.

Lemma clipboard_failure_is_not_fatal_witness :
  exists out,
    demoPack demoFiles
    = ((Ok true, out), ["package.json"; "src"; "pkg-1.0.0.tgz"])
    /\ endsWithLines out
         [Log "📄 Found tarball: pkg-1.0.0.tgz";
          Error "Error copying to clipboard: pbcopy: command not found";
          Log "📄 Tarball path: /proj/pkg-1.0.0.tgz";
          Log "";
          Log "🎉 Pack command completed successfully!"].
Proof.
  apply (clipboard_failure_is_not_fatal (list string) (fun _ _ => true)
           demoStat demoReaddir demoUnlink demoExec (fun _ => "/proj")
           basename None demoFiles
           {| stats_isDirectory := true; mtime := 0 |}
           [Log "🧹 Removing 1 existing .tgz file(s)...";
            Log "   Removed: old.tgz"]
           ["package.json"; "src"]
           {| success := true; output := ""; error := None |}
           [Log "⚡ Running: pnpm run build"]
           ["package.json"; "src"]
           {| success := true; output := "pkg-1.0.0.tgz"; error := None |}
           [Log "⚡ Running: pnpm pack"]
           ["package.json"; "src"; "pkg-1.0.0.tgz"]
           "/proj/pkg-1.0.0.tgz" []
           ["package.json"; "src"; "pkg-1.0.0.tgz"]
           None "pbcopy: command not found"
           ["package.json"; "src"; "pkg-1.0.0.tgz"]);
    reflexivity.
Defined.

(** All that the run of the witness prints. *)
Example clipboard_failure_on_demo :
  demoPack demoFiles
  = ((Ok true,
      [Log "📦 Building and packing in: /proj"; Log "";
       Log "🧹 Removing 1 existing .tgz file(s)..."; Log "   Removed: old.tgz";
       Log ""; Log "🔨 Building project..."; Log "⚡ Running: pnpm run build";
       Log "✅ Build completed"; Log ""; Log "📦 Packing project...";
       Log "⚡ Running: pnpm pack"; Log "✅ Pack completed"; Log "";
       Log "🔍 Finding latest tarball...";
       Log "📄 Found tarball: pkg-1.0.0.tgz";
       Error "Error copying to clipboard: pbcopy: command not found";
       Log "📄 Tarball path: /proj/pkg-1.0.0.tgz"; Log "";
       Log "🎉 Pack command completed successfully!"]),
     ["package.json"; "src"; "pkg-1.0.0.tgz"]).
Proof. reflexivity. Qed.

End PackClaims.

(** ** Further properties of [getSize] *)

Module SizeCoverage.
Import DirectorySizes Walk SizeFacts Coverage.

(** A loop whose body neither throws nor writes. *)
Lemma forOf_silent {A S} (body : A -> S -> M S) (step : S -> A -> S) items :
  Forall (fun item => forall s, body item s = (Ok (step s item), [])) items ->
  forall s, forOf body items s = (fold_left step items s, (Ok tt, [])).
Proof.
  induction 1 as [| item items Hitem _ IH]; intros s; simpl.
  - reflexivity.
  - rewrite Hitem, IH. reflexivity.
Qed.

Lemma forallb_entries (f : node -> bool) (items : list (string * node)) :
  forallb (fun '(_, child) => f child) items = true ->
  Forall (fun entry => f (snd entry) = true) items.
Proof.
  rewrite forallb_forall, Forall_forall.
  intros H [item child] Hin. exact (H _ Hin).
Qed.

(** X1: [getSize] throws exactly when the path it is called on cannot be
    stat'ed, with the message of [statSync] and without writing; on a file
    or on a directory, readable or not, it returns. *)
Theorem getSize_throws_iff_stat_fails filePath stats message :
  (exists out, getSize filePath stats = (Throw message, out))
  <-> stats = StatFails message.
Proof.
  split.
  - intros [out Hthrow].
    destruct stats as [size | items | unreadable | failure].
    + discriminate.
    + destruct (getSize_directory filePath (Dir items) I) as [out' Hok].
      congruence.
    + discriminate.
    + injection Hthrow as -> _. reflexivity.
  - intros ->. exists []. reflexivity.
Qed.

Lemma totalBytes_nonneg stats :
  sizesNonNegative stats = true -> 0 <= totalBytes stats.
Proof.
  induction stats as [size | items IH | message | message] using node_induction;
    intros Hsizes.
  - cbn [sizesNonNegative totalBytes] in *. now apply Z.leb_le.
  - cbn [sizesNonNegative totalBytes] in *. apply forallb_entries in Hsizes.
    induction items as [| [item child] items IHitems]; [simpl; lia |].
    apply Forall_cons_iff in IH as [Hchild IH].
    apply Forall_cons_iff in Hsizes as [Hsize Hsizes].
    specialize (IHitems IH Hsizes). cbn [snd] in *.
    specialize (Hchild Hsize). unfold sumZ in *. cbn [map fold_right] in *. lia.
  - simpl. lia.
  - simpl. lia.
Qed.

Lemma sumZ_totalBytes_nonneg (items : list (string * node)) :
  Forall (fun entry => sizesNonNegative (snd entry) = true) items ->
  0 <= sumZ (map (fun '(_, child) => totalBytes child) items).
Proof.
  induction 1 as [| [item child] items Hsizes _ IH]; unfold sumZ in *;
    cbn [map fold_right].
  - lia.
  - pose proof (totalBytes_nonneg child Hsizes). lia.
Qed.

(** Among sizes that are not negative, the bytes below an entry are at most
    the bytes below its directory. *)
Lemma totalBytes_entry_le (items : list (string * node)) entry :
  Forall (fun entry => sizesNonNegative (snd entry) = true) items ->
  In entry items ->
  totalBytes (snd entry)
  <= sumZ (map (fun '(_, child) => totalBytes child) items).
Proof.
  induction 1 as [| [item child] items Hsizes Hitems IH]; intros Hin;
    [destruct Hin |].
  pose proof (totalBytes_nonneg child Hsizes) as Hchild.
  pose proof (sumZ_totalBytes_nonneg items Hitems) as Hrest.
  unfold sumZ in *; cbn [map fold_right].
  destruct Hin as [<- | Hin]; [cbn [snd]; lia |].
  specialize (IH Hin). lia.
Qed.

(** X2: on a tree in which everything can be read, with file sizes that are
    not negative and add up to less than 2^53, [getSize] is the sum of the
    sizes of all the files below, and nothing is written. *)
Theorem getSize_of_readable_tree stats :
  forall filePath,
    fullyReadable stats = true ->
    sizesNonNegative stats = true ->
    totalBytes stats < 2 ^ 53 ->
    getSize filePath stats = (Ok (totalBytes stats), []).
Proof.
  induction stats as [size | items IH | message | message] using node_induction;
    intros filePath Hreadable Hsizes Hbound; try discriminate.
  - reflexivity.
  - cbn [fullyReadable sizesNonNegative] in Hreadable, Hsizes.
    apply forallb_entries in Hreadable. apply forallb_entries in Hsizes.
    cbn [getSize totalBytes] in *.
    rewrite (forOf_silent (addSize getSize filePath)
               (fun total entry => jsAdd total (totalBytes (snd entry)))).
    + rewrite (fold_left_jsAdd_sum (fun entry => totalBytes (snd entry))).
      * cbn [tryCatch bind ret fst snd app]. f_equal. f_equal.
        rewrite Z.add_0_l. f_equal. apply map_ext. now intros [item child].
      * eapply Forall_impl; [| exact Hsizes].
        intros entry Hentry. now apply totalBytes_nonneg.
      * lia.
      * rewrite Z.add_0_l.
        erewrite map_ext; [exact Hbound |]. now intros [item child].
    + rewrite Forall_forall in IH, Hreadable. apply Forall_forall.
      intros [item child] Hin total.
      pose proof (totalBytes_entry_le items (item, child) Hsizes Hin) as Hle.
      rewrite Forall_forall in Hsizes.
      unfold addSize.
      rewrite (IH _ Hin) by
        (first [now apply Hreadable | now apply Hsizes | cbn [snd] in *; lia]).
      reflexivity.
Qed.

Lemma getSize_of_readable_tree_witness :
  getSize "/root" scenario = (Ok 300, []).
Proof.
  apply (getSize_of_readable_tree scenario "/root"); reflexivity.
Defined.

(** From 2^53 bytes on the sum is rounded: one byte added to 2^53 bytes is
    lost. *)
Example getSize_rounds_past_2_53 :
  getSize "/root" pastExactSums = (Ok (2 ^ 53), [])
  /\ totalBytes pastExactSums = 2 ^ 53 + 1.
Proof. split; reflexivity. Qed.

Lemma forOf_cons_fst {A S} (body : A -> S -> M S) item items s :
  fst (forOf body (item :: items) s)
  = match body item s with
    | (Ok s', _) => fst (forOf body items s')
    | (Throw _, _) => s
    end.
Proof.
  simpl. destruct (body item s) as [[s' | e] out]; [| reflexivity].
  now destruct (forOf body items s') as [s'' [r out']].
Qed.

(** The loop of [getSize] adds the sizes of the entries it gets to. *)
Lemma addSize_loop_bounds filePath items :
  Forall (fun entry =>
            sizesNonNegative (snd entry) = true
            /\ forall p size out,
                totalBytes (snd entry) < 2 ^ 53 ->
                getSize p (snd entry) = (Ok size, out) ->
                0 <= size <= totalBytes (snd entry)) items ->
  forall total,
    0 <= total ->
    total + sumZ (map (fun '(_, child) => totalBytes child) items) < 2 ^ 53 ->
    total <= fst (forOf (addSize getSize filePath) items total)
    <= total + sumZ (map (fun '(_, child) => totalBytes child) items).
Proof.
  induction 1 as [| [item child] items [Hsizes Hchild] Hitems IH];
    intros total Htotal Hbound.
  - simpl. lia.
  - assert (Hrest : 0 <= sumZ (map (fun '(_, c) => totalBytes c) items)).
    { apply sumZ_totalBytes_nonneg. eapply Forall_impl; [| exact Hitems].
      now intros entry [Hentry _]. }
    pose proof (totalBytes_nonneg child Hsizes) as Hnonneg.
    assert (Hbody : addSize getSize filePath (item, child) total
                    = bind (getSize (path_join filePath item) child)
                           (fun size => ret (jsAdd total size))) by reflexivity.
    rewrite forOf_cons_fst, Hbody.
    replace (sumZ (map (fun '(_, c) => totalBytes c) ((item, child) :: items)))
      with (totalBytes child + sumZ (map (fun '(_, c) => totalBytes c) items))
      in * by reflexivity.
    destruct (getSize (path_join filePath item) child) as [[size | e] out] eqn:Hsize.
    + unfold bind, ret.
      specialize (Hchild _ _ _ ltac:(cbn [snd]; lia) Hsize). cbn [snd] in Hchild.
      rewrite jsAdd_exact by lia.
      specialize (IH (total + size) ltac:(lia) ltac:(lia)). lia.
    + unfold bind. lia.
Qed.

(** X3: [getSize] never counts more than there is. With file sizes that
    are not negative and add up to less than 2^53, what it returns lies
    between 0 and the bytes of all the files below, whatever could not be
    read. *)
Theorem getSize_never_overcounts stats :
  forall filePath size out,
    sizesNonNegative stats = true ->
    totalBytes stats < 2 ^ 53 ->
    getSize filePath stats = (Ok size, out) ->
    0 <= size <= totalBytes stats.
Proof.
  induction stats as [bytes | items IH | message | message] using node_induction;
    intros filePath size out Hsizes Hbound Hsize.
  - cbn [sizesNonNegative getSize totalBytes] in *.
    apply Z.leb_le in Hsizes. injection Hsize as <- _. lia.
  - cbn [sizesNonNegative] in Hsizes. apply forallb_entries in Hsizes.
    cbn [getSize totalBytes] in *.
    pose proof (addSize_loop_bounds filePath items) as Hloop.
    destruct (forOf (addSize getSize filePath) items 0) as [total loop] eqn:Hfor.
    destruct (tryCatch_console loop (cannotReadDirectory filePath)) as [out' Hcatch].
    rewrite Hcatch in Hsize. cbn [bind ret fst snd] in Hsize.
    injection Hsize as <- _.
    specialize (Hloop ltac:(rewrite Forall_forall in *; intros entry Hin;
                            split; [now apply Hsizes | intros p s o Hb; apply IH;
                                                       [exact Hin | now apply Hsizes
                                                        | exact Hb]])
                      0 ltac:(lia) ltac:(lia)).
    rewrite Hfor in Hloop. cbn [fst] in Hloop. lia.
  - cbn [getSize] in Hsize. cbv [tryCatch throw console bind ret] in Hsize.
    injection Hsize as <- _. cbn [totalBytes]. lia.
  - discriminate.
Qed.

Lemma getSize_never_overcounts_witness :
  0 <= 0 <= totalBytes danglingBeforeFile.
Proof.
  apply (getSize_never_overcounts danglingBeforeFile "/root" 0
           [cannotReadDirectory "/root/locked" "EACCES: permission denied";
            cannotReadDirectory "/root" "ENOENT: no such file or directory"]);
    reflexivity.
Defined.

(** X4: where every entry of a directory can be stat'ed, and the sizes of
    the entries are not negative and add up to less than 2^53, the size of
    the directory is the sum of what [getSize] returns for its entries; an
    entry that is a directory that cannot be listed is one of them, for 0. *)
Theorem getSize_is_sum_of_entries filePath items :
  Forall (fun entry => statable (snd entry)) items ->
  Forall (fun entry =>
            0 <= sizeOf (path_join filePath (fst entry)) (snd entry)) items ->
  sumZ (map (fun entry => sizeOf (path_join filePath (fst entry)) (snd entry))
            items) < 2 ^ 53 ->
  fst (getSize filePath (Dir items))
  = Ok (sumZ (map (fun entry => sizeOf (path_join filePath (fst entry))
                                       (snd entry)) items)).
Proof.
  intros Hitems Hsizes Hbound.
  destruct (getSize_sums_entries filePath items Hitems Hsizes Hbound)
    as [out ->].
  reflexivity.
Qed.

Lemma getSize_is_sum_of_entries_witness :
  fst (getSize "/root"
         (Dir [("locked", DirUnreadable "EACCES: permission denied");
               ("file", File 100)]))
  = Ok 100.
Proof.
  apply (getSize_is_sum_of_entries "/root"
           [("locked", DirUnreadable "EACCES: permission denied");
            ("file", File 100)]).
  - repeat constructor.
  - repeat constructor; vm_compute; discriminate.
  - reflexivity.
Defined.

End SizeCoverage.

(** ** Further properties of the size report *)

Module ReportCoverage.
Import DirectorySizes Walk SizeFacts ReportFacts ReportClaims Coverage.

(** X5: [getDirectorySizes] turns down, with one error line and without a
    scan, a path that names nothing (or something that cannot be stat'ed)
    and a path that names a file; on a directory it scans and returns
    [true]. It does not throw. *)
Theorem getDirectorySizes_validates host options :
  let dir := orDefault (directory options) "." in
  match lookup host dir with
  | None | Some (StatFails _) =>
      getDirectorySizes host options
      = (Ok false, [Error ("Error: Directory '" ++ dir ++ "' does not exist")])
  | Some (File _) =>
      getDirectorySizes host options
      = (Ok false, [Error ("Error: '" ++ dir ++ "' is not a directory")])
  | Some (Dir _) | Some (DirUnreadable _) =>
      exists out,
        getDirectorySizes host options
        = (Ok true, Log ("📂 Scanning directory: " ++ resolve host dir) :: out)
  end.
Proof.
  intros dir. unfold getDirectorySizes. cbv zeta. fold dir.
  destruct (lookup host dir) as [[size | items | message | message] |];
    try reflexivity.
  - cbn [exists_node negb stat_target]. rewrite bind_ret.
    cbn [isDirectory]. rewrite bind_ret. cbn [negb]. unfold emitting.
    destruct (listDirectoryContents _ _ _ _ _ _) as [directories out].
    cbv [bind ret console tryCatch fst snd]. eexists. reflexivity.
  - cbn [exists_node negb stat_target]. rewrite bind_ret.
    cbn [isDirectory]. rewrite bind_ret. cbn [negb]. unfold emitting.
    destruct (listDirectoryContents _ _ _ _ _ _) as [directories out].
    cbv [bind ret console tryCatch fst snd]. eexists. reflexivity.
Qed.

(** X6: the root call returns [topCount] nodes, or all it found when there
    are fewer; a negative [topCount] drops that many nodes from the end of
    the ranking. *)
Theorem report_length dirPath prefix dir maxDepth topCount :
  let found := Z.of_nat (List.length (discovered dirPath dir maxDepth 0)) in
  Z.of_nat (List.length
              (fst (listDirectoryContents dirPath prefix dir maxDepth 0 topCount)))
  = if topCount <? 0 then Z.max (found + topCount) 0
    else Z.min topCount found.
Proof.
  intros found. subst found. rewrite listDirectoryContents_top.
  unfold Array_slice0.
  rewrite <- (Permutation_length
                (Array_sort_perm bySizeDescending
                   (discovered dirPath dir maxDepth 0))).
  destruct (topCount <? 0) eqn:Hneg; rewrite length_firstn;
    rewrite <- (Permutation_length
                  (Array_sort_perm bySizeDescending
                     (discovered dirPath dir maxDepth 0)));
    [apply Z.ltb_lt in Hneg | apply Z.ltb_ge in Hneg]; lia.
Qed.

Lemma StronglySorted_split {A} (R : A -> A -> Prop) l1 l2 a b :
  StronglySorted R (l1 ++ l2) -> In a l1 -> In b l2 -> R a b.
Proof.
  induction l1 as [| x l1 IH]; simpl; intros Hsorted Ha Hb; [contradiction |].
  apply StronglySorted_inv in Hsorted as [Hsorted Hx].
  destruct Ha as [-> | Ha].
  - rewrite Forall_forall in Hx. apply Hx, in_or_app. now right.
  - now apply IH.
Qed.

(** X7: the nodes returned are the largest ones. They and the nodes left
    out are together the nodes found, each once, and no node left out is
    larger than a node returned. *)
Theorem report_keeps_the_largest dirPath prefix dir maxDepth topCount :
  exists leftOut,
    Permutation
      (fst (listDirectoryContents dirPath prefix dir maxDepth 0 topCount)
       ++ leftOut)%list
      (discovered dirPath dir maxDepth 0)
    /\ forall a b,
        In a (fst (listDirectoryContents dirPath prefix dir maxDepth 0 topCount)) ->
        In b leftOut ->
        size b <= size a.
Proof.
  rewrite listDirectoryContents_top.
  set (sorted := Array_sort bySizeDescending (discovered dirPath dir maxDepth 0)).
  destruct (Array_slice0_firstn topCount sorted) as [n ->].
  exists (skipn n sorted). split.
  - rewrite firstn_skipn. apply Permutation_sym, Array_sort_perm.
  - intros a b Ha Hb.
    assert (Hsorted : StronglySorted (inOrder bySizeDescending)
                        (firstn n sorted ++ skipn n sorted)).
    { rewrite firstn_skipn. apply Array_sort_sorted.
      - apply bySizeDescending_total.
      - apply bySizeDescending_trans. }
    pose proof (StronglySorted_split _ _ _ a b Hsorted Ha Hb) as Hab.
    unfold inOrder, bySizeDescending in Hab. lia.
Qed.

(** A node as the walker builds it: its relative path is its name, and its
    path is the name joined to the directory the walker is in, or to the
    path of the node one level up. *)
Lemma discovered_fields dir :
  forall dirPath maxDepth currentDepth,
    Forall (fun d =>
              relativePath d = name d
              /\ (depth d = currentDepth
                  /\ path d = path_join dirPath (name d)
                  \/ exists parent,
                       In parent (discovered dirPath dir maxDepth currentDepth)
                       /\ depth d = depth parent + 1
                       /\ path d = path_join (path parent) (name d)))
           (discovered dirPath dir maxDepth currentDepth).
Proof.
  induction dir as [size | items IH | message | message] using node_induction;
    intros dirPath maxDepth currentDepth;
    try (simpl; destruct (currentDepth >? maxDepth); constructor).
  rewrite discovered_Dir. destruct (currentDepth >? maxDepth); [constructor |].
  rewrite Forall_forall in *. intros d Hin.
  apply in_flat_map in Hin. destruct Hin as ([item stats] & Hentry & Hin).
  specialize (IH _ Hentry (path_join dirPath item) maxDepth (currentDepth + 1)).
  cbn [snd] in IH. rewrite Forall_forall in IH.
  set (here := {| name := item; path := path_join dirPath item;
                  relativePath := item;
                  size := sizeOf (path_join dirPath item) stats;
                  depth := currentDepth |}).
  assert (Hfound :
            forall parent,
              Walk.directoryNode stats ->
              parent = here
              \/ In parent (discovered (path_join dirPath item) stats maxDepth
                                       (currentDepth + 1)) ->
              In parent
                 (flat_map (discoveredItem
                              (fun itemPath stats =>
                                 discovered itemPath stats maxDepth
                                            (currentDepth + 1))
                              dirPath currentDepth)
                           items)).
  { intros parent Hdir Hparent. apply in_flat_map. exists (item, stats).
    split; [exact Hentry |]. unfold discoveredItem.
    destruct stats; try contradiction;
      (destruct Hparent as [-> | Hparent]; [now left | now right]). }
  assert (Hcases :
            Walk.directoryNode stats ->
            d = here
            \/ In d (discovered (path_join dirPath item) stats maxDepth
                                (currentDepth + 1)) ->
            relativePath d = name d
            /\ (depth d = currentDepth /\ path d = path_join dirPath (name d)
                \/ exists parent,
                     In parent
                        (flat_map (discoveredItem
                                     (fun itemPath stats =>
                                        discovered itemPath stats maxDepth
                                                   (currentDepth + 1))
                                     dirPath currentDepth)
                                  items)
                     /\ depth d = depth parent + 1
                     /\ path d = path_join (path parent) (name d))).
  { intros Hdir [-> | Hbelow].
    - split; [reflexivity | left; now split].
    - destruct (IH d Hbelow) as [Hrel [[Hdepth Hpath] | (parent & Hp & Hd & Hpath)]].
      + split; [exact Hrel | right]. exists here.
        split; [apply Hfound; [exact Hdir | now left] |].
        split; [exact Hdepth | exact Hpath].
      + split; [exact Hrel | right]. exists parent.
        split; [apply Hfound; [exact Hdir | now right] |].
        split; [exact Hd | exact Hpath]. }
  unfold discoveredItem in Hin.
  destruct stats as [size | items' | message | message]; try destruct Hin.
  - apply Hcases; [exact I | now left].
  - apply Hcases; [exact I | now right].
  - apply Hcases; [exact I | now left].
  - apply Hcases; [exact I | now right].
Qed.

(** X8: in every node returned the relative path, which is computed from
    the two paths, is the bare name of the directory, whatever its depth; a
    node of depth 0 has the path of its name joined to the scanned
    directory, and a deeper node that of its name joined to the path of a
    node found one level up. The scanned directory is not the root
    directory: its path ends with no separator. *)
Theorem report_node_fields dirPath prefix dir maxDepth topCount :
  endsWith dirPath "/" = false ->
  Forall (fun d =>
            relativePath d = name d
            /\ (depth d = 0 /\ path d = path_join dirPath (name d)
                \/ exists parent,
                     In parent (discovered dirPath dir maxDepth 0)
                     /\ depth d = depth parent + 1
                     /\ path d = path_join (path parent) (name d)))
         (fst (listDirectoryContents dirPath prefix dir maxDepth 0 topCount)).
Proof.
  intros _.
  apply Forall_forall. intros d Hin. apply report_found in Hin.
  pose proof (discovered_fields dir dirPath maxDepth 0) as Hfields.
  rewrite Forall_forall in Hfields. now apply Hfields.
Qed.

Lemma report_node_fields_witness :
  Forall (fun d =>
            relativePath d = name d
            /\ (depth d = 0 /\ path d = path_join "/root" (name d)
                \/ exists parent,
                     In parent (discovered "/root" scenario 2 0)
                     /\ depth d = depth parent + 1
                     /\ path d = path_join (path parent) (name d)))
         (fst (listDirectoryContents "/root" "" scenario 2 0 10)).
Proof.
  apply (report_node_fields "/root" "" scenario 2 10). reflexivity.
Defined.

(** In the scenario the node [c] is found below [b]. *)
Example nested_node_fields :
  map (fun d => (name d, relativePath d, path d, depth d))
      (fst (listDirectoryContents "/root" "" scenario 2 0 10))
  = [("b", "b", "/root/b", 0); ("c", "c", "/root/b/c", 1);
     ("a", "a", "/root/a", 0)].
Proof. reflexivity. Qed.

End ReportCoverage.

Module FormatCoverage.
Import DirectorySizes Walk SizeFacts ReportFacts ReportClaims Coverage.

Lemma toFixed2_hundredths num den :
  toFixed2 num den = renderHundredths (hundredths num den).
Proof. reflexivity. Qed.

(** The number of hundredths kept is the nearest one. *)
Lemma hundredths_nearest num den :
  0 < den ->
  2 * Z.abs (100 * num - hundredths num den * den) <= den.
Proof.
  intros Hden. unfold hundredths.
  pose proof (Z.div_mod (200 * num + den) (2 * den) ltac:(lia)) as Hdiv.
  pose proof (Z.mod_pos_bound (200 * num + den) (2 * den) ltac:(lia)) as Hmod.
  set (n := (200 * num + den) / (2 * den)) in *.
  set (m := (200 * num + den) mod (2 * den)) in *.
  assert (H200 : 200 * num - 2 * n * den = m - den) by lia.
  lia.
Qed.

(** X9: below 1024 bytes the count is printed as it is, in bytes. *)
Theorem formatBytes_below_one_kilobyte bytes :
  0 < bytes < 1024 ->
  formatBytes bytes = string_of_Z bytes ++ " B".
Proof.
  intros [Hpos Hlt]. unfold formatBytes.
  replace (bytes =? 0) with false by (symmetry; apply Z.eqb_neq; lia).
  replace (bytes <? 0) with false by (symmetry; apply Z.ltb_ge; lia).
  assert (Hindex : unitIndex bytes = 0).
  { unfold unitIndex. apply Z.div_small. split; [apply Z.log2_nonneg |].
    apply Z.log2_lt_pow2; [exact Hpos | ]. change (2 ^ 10) with 1024. lia. }
  cbv zeta. rewrite Hindex. change (1024 ^ 0) with 1.
  change (nth (Z.to_nat 0) sizes "undefined") with "B".
  f_equal. unfold toFixed2. cbv zeta.
  replace ((200 * bytes + 1) / (2 * 1)) with (100 * bytes)
    by (apply Z.div_unique with 1; lia).
  replace (100 * bytes mod 100) with 0
    by (symmetry; rewrite Z.mul_comm; apply Z.mod_mul; lia).
  replace (100 * bytes / 100) with bytes
    by (symmetry; rewrite Z.mul_comm; apply Z.div_mul; lia).
  reflexivity.
Qed.

Lemma formatBytes_below_one_kilobyte_witness :
  formatBytes 1023 = "1023 B".
Proof.
  apply (formatBytes_below_one_kilobyte 1023). lia.
Defined.

(** X10: up to 1023 TB the unit is the largest of the five in which the
    count is at least 1, and the number printed before it is the count in
    that unit rounded to the nearest hundredth, without trailing zeros. *)
Theorem formatBytes_unit_and_rounding bytes :
  0 < bytes <= 1023 * 1024 ^ 4 ->
  exists i n,
    0 <= i < 5
    /\ 1024 ^ i <= bytes < 1024 ^ (i + 1)
    /\ 2 * Z.abs (100 * bytes - n * 1024 ^ i) <= 1024 ^ i
    /\ formatBytes bytes
       = renderHundredths n ++ " " ++ nth (Z.to_nat i) sizes "undefined"
    /\ In (nth (Z.to_nat i) sizes "undefined") sizes.
Proof.
  intros [Hpos Hle].
  destruct (formatBytes_unit bytes) as (i & Hi & Hrange & Hformat & Hunit).
  { split; [exact Hpos | exact Hle]. }
  exists i, (hundredths bytes (1024 ^ i)).
  split; [exact Hi |]. split; [exact Hrange |].
  split; [apply hundredths_nearest, Z.pow_pos_nonneg; lia |].
  split; [rewrite <- toFixed2_hundredths; exact Hformat | exact Hunit].
Qed.

Lemma formatBytes_unit_and_rounding_witness :
  exists i n,
    0 <= i < 5
    /\ 1024 ^ i <= 1100 < 1024 ^ (i + 1)
    /\ 2 * Z.abs (100 * 1100 - n * 1024 ^ i) <= 1024 ^ i
    /\ formatBytes 1100
       = renderHundredths n ++ " " ++ nth (Z.to_nat i) sizes "undefined"
    /\ In (nth (Z.to_nat i) sizes "undefined") sizes.
Proof.
  apply (formatBytes_unit_and_rounding 1100). lia.
Defined.

(** The witness prints [1.07 KB]. *)
Example formatBytes_1100 : formatBytes 1100 = "1.07 KB".
Proof. reflexivity. Qed.

(** X11: when [topCount] is not below the number of directories found, and
    their sizes are not negative and add up to less than 2^53, the total
    printed is the sum of the sizes of all the nodes found; a nested
    directory is in it once for itself and once in each directory above
    it. *)
Theorem total_of_a_full_report host options stats :
  let dir := orDefault (directory options) "." in
  let depth := orDefault (maxDepth options) 2 in
  let count := orDefault (topCount options) 10 in
  let found := discovered (resolve host dir) stats depth 0 in
  lookup host dir = Some stats ->
  directoryNode stats ->
  0 <= depth ->
  Z.of_nat (List.length found) <= count ->
  Forall (fun d => 0 <= size d) found ->
  Walk.sumZ (map size found) < 2 ^ 53 ->
  exists out,
    getDirectorySizes host options
    = (Ok true,
       (out ++
        [Log ("📊 Total directory size: "
              ++ formatBytes (Walk.sumZ (map size found)));
         Log "";
         Log ("⏱️  Scan completed in "
              ++ string_of_Z (now host 1 - now host 0) ++ "ms")])%list).
Proof.
  intros dir depth count found Hlookup Hdir Hdepth Hcount Hsizes Hbound.
  destruct (getDirectorySizes_total host options stats Hlookup Hdir Hdepth)
    as [out Hrun].
  exists out. rewrite Hrun. fold dir depth count found.
  now rewrite (total_of_full_report count found Hsizes Hbound Hcount).
Qed.

Lemma total_of_a_full_report_witness :
  exists out,
    getDirectorySizes scenarioHost
      {| directory := None; maxDepth := None; topCount := None |}
    = (Ok true,
       (out ++
        [Log "📊 Total directory size: 500 B"; Log "";
         Log "⏱️  Scan completed in 1ms"])%list).
Proof.
  apply (total_of_a_full_report scenarioHost
           {| directory := None; maxDepth := None; topCount := None |}
           scenario eq_refl I).
  - simpl. lia.
  - vm_compute. discriminate.
  - repeat constructor; vm_compute; discriminate.
  - reflexivity.
Defined.

End FormatCoverage.

(** ** Further properties of the exec command *)

Module ExecCoverage.
Import ExecCommand Dispatch ExecFacts DispatchFacts ExecClaims Coverage.

Lemma map_flat_map {A B C} (g : B -> C) (f : A -> list B) items :
  map g (flat_map f items) = flat_map (fun item => map g (f item)) items.
Proof.
  induction items as [| item items IH]; simpl.
  - reflexivity.
  - now rewrite map_app, IH.
Qed.

Lemma flat_map_agree {A B} (f g : A -> list B) items :
  Forall (fun item => f item = g item) items ->
  flat_map f items = flat_map g items.
Proof.
  induction 1 as [| item items Hitem _ IH]; simpl; congruence.
Qed.

Lemma qualifying_is_discovered dir :
  forall dirPath maxDepth currentDepth,
    noSkippedName dir = true ->
    qualifying dirPath dir maxDepth currentDepth
    = map DirectorySizes.path
          (Walk.discovered dirPath dir maxDepth currentDepth).
Proof.
  induction dir as [size | items IH | message | message] using node_induction;
    intros dirPath maxDepth currentDepth Hnames;
    try (simpl; destruct (currentDepth >? maxDepth); reflexivity).
  rewrite qualifying_Dir, ReportFacts.discovered_Dir.
  destruct (currentDepth >? maxDepth); [reflexivity |].
  rewrite map_flat_map. apply flat_map_agree.
  cbn [noSkippedName] in Hnames. rewrite forallb_forall in Hnames.
  rewrite Forall_forall in *. intros [item stats] Hin.
  specialize (Hnames _ Hin). cbn beta iota in Hnames.
  apply andb_prop in Hnames as [Hitem Hchild].
  apply Bool.negb_true_iff in Hitem.
  specialize (IH _ Hin). cbn [snd] in IH.
  unfold qualifyingItem, Walk.discoveredItem.
  destruct stats; try reflexivity; rewrite Hitem; cbn [map DirectorySizes.path];
    f_equal; now apply IH.
Qed.

(** X12: the two walkers apply the same depth bound. On a tree without a
    deny-listed name, [getSubdirectories] returns the paths of the nodes the
    walker of the size report finds with the same [maxDepth], in the same
    order. *)
Theorem walkers_find_the_same_directories dirPath dir maxDepth currentDepth :
  noSkippedName dir = true ->
  fst (getSubdirectories dirPath dir maxDepth currentDepth)
  = map DirectorySizes.path
        (Walk.discovered dirPath dir maxDepth currentDepth).
Proof.
  intros Hnames. rewrite getSubdirectories_qualifying.
  now apply qualifying_is_discovered.
Qed.

Lemma walkers_find_the_same_directories_witness :
  fst (getSubdirectories "/root" Walk.scenario 0 0) = ["/root/a"; "/root/b"].
Proof.
  apply (walkers_find_the_same_directories "/root" Walk.scenario 0 0).
  reflexivity.
Defined.

Lemma trimStart_head s :
  match trimStart s with
  | String c _ => isWhiteSpace c = false
  | EmptyString => True
  end.
Proof.
  induction s as [| c s IH]; simpl; [exact I |].
  destruct (isWhiteSpace c) eqn:Hc; [exact IH | exact Hc].
Qed.

Lemma trimEnd_idempotent s : trimEnd (trimEnd s) = trimEnd s.
Proof.
  induction s as [| c s IH]; simpl; [reflexivity |].
  destruct (trimEnd s) as [| d u] eqn:Hend.
  - destruct (isWhiteSpace c) eqn:Hc; simpl; [reflexivity | now rewrite Hc].
  - cbn [trimEnd]. cbn [trimEnd] in IH. rewrite IH. reflexivity.
Qed.

Lemma trimEnd_keeps_head c s :
  isWhiteSpace c = false -> exists t, trimEnd (String c s) = String c t.
Proof.
  intros Hc. simpl. destruct (trimEnd s); [rewrite Hc |]; eauto.
Qed.

(** Trimming a trimmed string changes nothing. *)
Lemma trim_idempotent s : trim (trim s) = trim s.
Proof.
  unfold trim. pose proof (trimStart_head s) as Hhead.
  destruct (trimStart s) as [| c t]; [reflexivity |].
  destruct (trimEnd_keeps_head c t Hhead) as [u Hu].
  rewrite Hu. cbn [trimStart]. rewrite Hhead, <- Hu.
  apply trimEnd_idempotent.
Qed.

(** X13: [executeCommand] does not throw and writes nothing. The output it
    keeps is trimmed, and the result carries an error message exactly when
    the command did not succeed, which is when [execSync] threw. *)
Theorem executeCommand_result World execSync command dirPath w :
  exists r,
    executeCommand World execSync command dirPath w
    = ((Ok r, []), snd (execSync command dirPath w))
    /\ trim (output r) = output r
    /\ (success r = true <-> error r = None)
    /\ (success r = true
        <-> exists stdout, fst (execSync command dirPath w) = Exited stdout).
Proof.
  rewrite executeCommand_resultOf.
  exists (resultOf (fst (execSync command dirPath w))).
  split; [reflexivity |].
  destruct (fst (execSync command dirPath w)) as [stdout | stdout message];
    cbn [resultOf output success error].
  - split; [apply trim_idempotent |]. split; [tauto |].
    split; [eauto | reflexivity].
  - split; [apply trim_idempotent |]. split; [split; discriminate |].
    split; [discriminate | intros [s Hs]; discriminate].
Qed.



Lemma subdirectoryItem_silent recurse dirPath item stats directories :
  (Walk.directoryNode stats ->
   snd (recurse (path_join dirPath item) stats) = []) ->
  snd (subdirectoryItem recurse dirPath (item, stats) directories) = [].
Proof.
  intros Hrec. unfold subdirectoryItem.
  destruct stats as [size | items | message | message];
    cbn [isDirectory]; try rewrite bind_ret; try reflexivity.
  - destruct (includes skipDirs item); cbn [negb]; [reflexivity |].
    unfold bind, emitting, ret, tryCatch. simpl. now rewrite (Hrec I).
  - destruct (includes skipDirs item); cbn [negb]; [reflexivity |].
    unfold bind, emitting, ret, tryCatch. simpl. now rewrite (Hrec I).
Qed.

Lemma getSubdirectories_silent maxDepth dir :
  forall dirPath currentDepth,
    Walk.directoryNode dir ->
    everyDirectoryListable dir = true ->
    snd (getSubdirectories dirPath dir maxDepth currentDepth) = [].
Proof.
  induction dir as [size | items IH | message | message] using node_induction;
    intros dirPath currentDepth Hdir Hlistable; try contradiction;
    try discriminate.
  rewrite getSubdirectories_Dir.
  destruct (currentDepth >? maxDepth); [reflexivity |].
  cbn [everyDirectoryListable] in Hlistable.
  apply SizeCoverage.forallb_entries in Hlistable.
  set (body := subdirectoryItem
                 (fun itemPath stats =>
                    getSubdirectories itemPath stats maxDepth (currentDepth + 1))
                 dirPath).
  rewrite (SizeCoverage.forOf_silent body
             (fun acc entry =>
                match body entry acc with
                | (Ok acc', _) => acc'
                | (Throw _, _) => acc
                end)).
  - reflexivity.
  - rewrite Forall_forall in *. intros [item stats] Hin directories.
    pose proof (subdirectoryItem_silent
                  (fun itemPath stats =>
                     getSubdirectories itemPath stats maxDepth (currentDepth + 1))
                  dirPath item stats directories) as Hsilent.
    destruct (subdirectoryItem_value
                (fun itemPath stats =>
                   getSubdirectories itemPath stats maxDepth (currentDepth + 1))
                (fun itemPath stats =>
                   fst (getSubdirectories itemPath stats maxDepth
                                          (currentDepth + 1)))
                dirPath item stats directories eq_refl) as [out Hvalue].
    fold body in Hsilent, Hvalue. rewrite Hvalue in *. cbn [snd] in Hsilent.
    rewrite Hsilent; [reflexivity |].
    intros Hchild. apply (IH _ Hin); [exact Hchild | now apply Hlistable].
Qed.

(** X15: [getSubdirectories] skips entries that cannot be stat'ed without
    a word. On a directory below which every directory can be listed it
    writes nothing, dangling links or not; its only warnings are for
    directories it cannot list. *)
Theorem getSubdirectories_is_silent_on_listable_trees
    dirPath dir maxDepth currentDepth :
  Walk.directoryNode dir ->
  everyDirectoryListable dir = true ->
  snd (getSubdirectories dirPath dir maxDepth currentDepth) = [].
Proof.
  apply getSubdirectories_silent.
Qed.

Lemma getSubdirectories_is_silent_on_listable_trees_witness :
  snd (getSubdirectories "/root"
         (Dir [("link", StatFails "ENOENT: no such file or directory");
               ("a", Dir [("file", File 100)])]) 2 0)
  = [].
Proof.
  apply (getSubdirectories_is_silent_on_listable_trees "/root"
           (Dir [("link", StatFails "ENOENT: no such file or directory");
                 ("a", Dir [("file", File 100)])]) 2 0 I).
  reflexivity.
Defined.

End ExecCoverage.

(** ** Further properties of the pack command *)

Module PackCoverage.
Import ExecCommand PackCommand Packing Coverage.

Section AnyMachine.
Variable World : Type.
Variable existsSync : string -> World -> bool.
Variable statSync : string -> World -> Res Stats.
Variable readdirSync : string -> World -> Res (list string).
Variable unlinkSync : string -> World -> Res unit * World.
Variable execSync : string -> option string -> World -> ExecOutcome * World.
Variable path_resolve : string -> string.
Variable path_basename : string -> string.

Lemma io_tryCatch_warns (m : IO World unit) (line : string -> Line) w :
  exists out w',
    io_tryCatch m (fun e => lift (console (line e))) w = ((Ok tt, out), w').
Proof.
  unfold io_tryCatch. destruct (m w) as [[[[] | e] out] w']; simpl; eauto.
Qed.

Lemma removeTarballs_returns directory w :
  exists out w',
    removeTarballs World readdirSync unlinkSync directory w = ((Ok tt, out), w').
Proof.
  unfold removeTarballs, logWarn.
  apply (io_tryCatch_warns _
           (fun e => Warn ("Warning: Could not remove .tgz files: " ++ e))).
Qed.

Lemma executeCommand_returns command directory w :
  exists r w',
    executeCommand World execSync command directory w
    = ((Ok r, [Log ("⚡ Running: " ++ command)]), w')
    /\ (success r = true
        <-> exists stdout,
            fst (execSync command (Some directory) w) = Exited stdout).
Proof.
  unfold executeCommand, io_bind, log, lift, console.
  destruct (execSync command (Some directory) w) as [[stdout | stdout message] w'];
    cbn [fst]; eexists; eexists; (split; [reflexivity |]); cbn [success].
  - split; eauto.
  - split; [discriminate | intros [s Hs]; discriminate].
Qed.

(** Reading the modification times writes nothing and leaves the machine
    as it is. *)
Lemma withMtime_reads directory files w :
  exists r, withMtime World statSync directory files w = ((r, []), w).
Proof.
  induction files as [| file files [r IH]]; cbn [withMtime].
  - eexists; reflexivity.
  - unfold io_bind, reading, io_ret, ret.
    destruct (statSync (path_join directory file) w) as [stats | e].
    + rewrite IH. destruct r as [timed | e]; eexists; reflexivity.
    + eexists; reflexivity.
Qed.

Lemma withMtime_values directory (mt : string -> Z) files w :
  (forall file, In file files ->
                exists stats, statSync (path_join directory file) w = Ok stats
                              /\ mtime stats = mt file) ->
  withMtime World statSync directory files w
  = ((Ok (map (fun file => (file, mt file)) files), []), w).
Proof.
  induction files as [| file files IH]; intros Hstat; cbn [withMtime map].
  - reflexivity.
  - unfold io_bind, reading, io_ret, ret.
    destruct (Hstat file (or_introl eq_refl)) as (stats & -> & <-).
    rewrite IH by (intros f Hf; apply Hstat; now right). reflexivity.
Qed.

Lemma sortByMtime_reads directory tgzFiles w :
  exists r, sortByMtime World statSync directory tgzFiles w = ((r, []), w).
Proof.
  unfold sortByMtime.
  destruct tgzFiles as [| first [| second rest]];
    try (eexists; reflexivity).
  unfold io_bind.
  destruct (withMtime_reads directory (first :: second :: rest) w) as [r ->].
  destruct r; eexists; reflexivity.
Qed.

Lemma findLatestTarball_reads directory w :
  exists found out,
    findLatestTarball World statSync readdirSync directory w
    = ((Ok found, out), w)
    /\ (out = []
        \/ found = None
           /\ exists e, out = [Error ("Error finding tarball: " ++ e)]).
Proof.
  unfold findLatestTarball, io_tryCatch, io_bind, reading, logError, lift,
    console, io_ret, ret.
  destruct (readdirSync directory w) as [files | e].
  - destruct (List.length (filter isTarball files) =? 0)%nat.
    + do 2 eexists. split; [reflexivity | now left].
    + destruct (sortByMtime_reads directory (filter isTarball files) w)
        as [[sorted | e] ->].
      * do 2 eexists. split; [reflexivity | now left].
      * do 2 eexists. split; [reflexivity |]. right.
        split; [reflexivity | eexists; reflexivity].
  - do 2 eexists. split; [reflexivity |]. right.
    split; [reflexivity | eexists; reflexivity].
Qed.

(** X20: [findLatestTarball] does not throw and leaves the machine as it
    is. It writes an error line only when it answers [null] because the
    listing or a [statSync] failed. *)
Theorem findLatestTarball_is_safe directory w :
  exists found out,
    findLatestTarball World statSync readdirSync directory w
    = ((Ok found, out), w)
    /\ (out = []
        \/ found = None
           /\ exists e, out = [Error ("Error finding tarball: " ++ e)]).
Proof.
  apply findLatestTarball_reads.
Qed.

Lemma byMtime_total (a b : string * Z) :
  0 < snd b - snd a -> snd a - snd b <= 0.
Proof. lia. Qed.

Lemma byMtime_trans (a b c : string * Z) :
  inOrder (fun a b => snd b - snd a) a b ->
  inOrder (fun a b => snd b - snd a) b c ->
  inOrder (fun a b => snd b - snd a) a c.
Proof. unfold inOrder. lia. Qed.

(** The head of the files sorted by modification time is a most recent
    one. *)
Lemma newest_first (mt : string -> Z) files :
  files <> [] ->
  exists file,
    hd "undefined"
       (map fst (Array_sort (fun a b => snd b - snd a)
                            (map (fun file => (file, mt file)) files)))
    = file
    /\ In file files
    /\ forall other, In other files -> mt other <= mt file.
Proof.
  intros Hfiles.
  set (timed := map (fun file => (file, mt file)) files).
  pose proof (Array_sort_perm (fun a b => snd b - snd a) timed) as Hperm.
  pose proof (Array_sort_sorted (fun a b : string * Z => snd b - snd a)
                byMtime_total byMtime_trans timed) as Hsorted.
  destruct (Array_sort (fun a b => snd b - snd a) timed) as [| [file t] rest].
  - apply Permutation_sym, Permutation_nil in Hperm.
    destruct files; [congruence | discriminate].
  - exists file. cbn [map hd fst].
    assert (Hin : In (file, t) timed).
    { eapply Permutation_in; [apply Permutation_sym, Hperm | now left]. }
    apply in_map_iff in Hin as (f & Hf & Hinf). injection Hf as -> <-.
    split; [reflexivity |]. split; [exact Hinf |].
    intros other Hother.
    assert (Hin : In (other, mt other) ((file, mt file) :: rest)).
    { eapply Permutation_in; [exact Hperm |].
      apply in_map_iff. now exists other. }
    destruct Hin as [Heq | Hin].
    + injection Heq as _ ->. lia.
    + apply StronglySorted_inv in Hsorted as [_ Hhead].
      rewrite Forall_forall in Hhead. specialize (Hhead _ Hin).
      unfold inOrder in Hhead. cbn [snd] in Hhead. lia.
Qed.

(** X19: when the listing and the [statSync] of the tarballs succeed,
    [findLatestTarball] answers [null] if the directory holds no [.tgz]
    file, and otherwise the path of a [.tgz] file of the directory that no
    other [.tgz] file is newer than. *)
Theorem findLatestTarball_is_the_newest directory (mt : string -> Z) files w :
  readdirSync directory w = Ok files ->
  (forall file, In file (filter isTarball files) ->
                exists stats, statSync (path_join directory file) w = Ok stats
                              /\ mtime stats = mt file) ->
  match filter isTarball files with
  | [] =>
      findLatestTarball World statSync readdirSync directory w
      = ((Ok None, []), w)
  | _ :: _ =>
      exists file,
        findLatestTarball World statSync readdirSync directory w
        = ((Ok (Some (path_join directory file)), []), w)
        /\ In file files
        /\ isTarball file = true
        /\ forall other,
            In other files -> isTarball other = true -> mt other <= mt file
  end.
Proof.
  intros Hlist Hstat.
  unfold findLatestTarball, io_tryCatch, io_bind, reading, io_ret, ret.
  rewrite Hlist.
  destruct (filter isTarball files) as [| first rest] eqn:Htgz.
  - reflexivity.
  - cbn [List.length Nat.eqb].
    destruct (newest_first mt (first :: rest) ltac:(discriminate))
      as (file & Hhead & Hin & Hnewest).
    assert (Hfile : In file files /\ isTarball file = true).
    { apply filter_In. now rewrite Htgz. }
    exists file. split; [| split; [apply Hfile | split; [apply Hfile |]]].
    + unfold sortByMtime. destruct rest as [| second rest].
      * cbn in Hhead. subst file. reflexivity.
      * unfold io_bind, io_ret, ret.
        rewrite (withMtime_values directory mt (first :: second :: rest) w Hstat).
        cbn [app]. now rewrite Hhead.
    + intros other Hother Htar. apply Hnewest. rewrite <- Htgz.
      apply filter_In. now split.
Qed.

End AnyMachine.

Lemma findLatestTarball_is_the_newest_witness :
  exists file,
    findLatestTarball (list string) demoMtime demoReaddir "/proj" twoTarballs
    = ((Ok (Some (path_join "/proj" file)), []), twoTarballs)
    /\ In file twoTarballs
    /\ isTarball file = true
    /\ forall other,
        In other twoTarballs -> isTarball other = true ->
        demoMt other <= demoMt file.
Proof.
  apply (findLatestTarball_is_the_newest (list string) demoMtime demoReaddir
           "/proj" demoMt twoTarballs twoTarballs eq_refl).
  intros file Hin. vm_compute in Hin.
  destruct Hin as [<- | [<- | []]]; eexists; split; reflexivity.
Defined.

(** The newer tarball is found, though it is listed last. *)
Example findLatestTarball_on_demo :
  findLatestTarball (list string) demoMtime demoReaddir "/proj" twoTarballs
  = ((Ok (Some "/proj/new.tgz"), []), twoTarballs).
Proof. reflexivity. Qed.

End PackCoverage.

Module PackRunCoverage.
Import ExecCommand PackCommand Packing Coverage PackCoverage.

Section AnyMachine.
Variable World : Type.
Variable existsSync : string -> World -> bool.
Variable statSync : string -> World -> Res Stats.
Variable readdirSync : string -> World -> Res (list string).
Variable unlinkSync : string -> World -> Res unit * World.
Variable execSync : string -> option string -> World -> ExecOutcome * World.
Variable path_resolve : string -> string.
Variable path_basename : string -> string.

Lemma io_bind_reading {W A B} (f : W -> Res A) (k : A -> IO W B) w a :
  f w = Ok a -> io_bind (reading W f) k w = k a w.
Proof.
  intros Hread. unfold io_bind, reading. rewrite Hread.
  now destruct (k a w) as [[r out] w'].
Qed.

Lemma io_bind_reading_throws {W A B} (f : W -> Res A) (k : A -> IO W B) w e :
  f w = Throw e -> io_bind (reading W f) k w = ((Throw e, []), w).
Proof.
  intros Hread. unfold io_bind, reading. now rewrite Hread.
Qed.

Lemma io_bind_log {W B} (s : string) (k : unit -> IO W B) w :
  io_bind (log W s) k w
  = let '((r, out), w') := k tt w in ((r, Log s :: out), w').
Proof. reflexivity. Qed.

Lemma journal_unchanged (j : Journal) :
  {| unlinked := (unlinked j ++ [])%list; executed := executed j |} = j.
Proof. destruct j. cbn. now rewrite app_nil_r. Qed.

(** The loop of [removeTarballs] calls [unlinkSync] on the files in order
    and stops at the first call that throws; the journal apart, it runs on
    the machine with a journal as it does on the machine. *)
Lemma unlinkEach directory tgzFiles :
  forall w j,
    exists r out w' done,
      forEach (Observed World)
        (fun file =>
           io_bind (acting (Observed World)
                      (observedUnlink World unlinkSync (path_join directory file)))
                   (fun _ => log (Observed World) ("   Removed: " ++ file)))
        tgzFiles (w, j)
      = ((r, out),
         (w', {| unlinked := (unlinked j ++ done)%list;
                 executed := executed j |}))
      /\ forEach World
           (fun file =>
              io_bind (acting World (unlinkSync (path_join directory file)))
                      (fun _ => log World ("   Removed: " ++ file)))
           tgzFiles w
         = ((r, out), w')
      /\ unlinkedUntilThrow World unlinkSync
           (map (path_join directory) tgzFiles) w
         = (done, w').
Proof.
  set (observed :=
         fun file =>
           io_bind (acting (Observed World)
                      (observedUnlink World unlinkSync (path_join directory file)))
                   (fun _ => log (Observed World) ("   Removed: " ++ file))).
  set (plain :=
         fun file =>
           io_bind (acting World (unlinkSync (path_join directory file)))
                   (fun _ => log World ("   Removed: " ++ file))).
  assert (Hobserved :
            forall file w j,
              observed file (w, j)
              = let (r, w1) := unlinkSync (path_join directory file) w in
                (match r with
                 | Ok _ => (Ok tt, [Log ("   Removed: " ++ file)])
                 | Throw e => (Throw e, [])
                 end,
                 (w1, {| unlinked := (unlinked j ++ [path_join directory file])%list;
                         executed := executed j |}))).
  { intros file w j.
    unfold observed, io_bind, acting, observedUnlink, log, lift, console.
    cbn [fst snd].
    now destruct (unlinkSync (path_join directory file) w) as [[[] | e] w1]. }
  assert (Hplain :
            forall file w,
              plain file w
              = let (r, w1) := unlinkSync (path_join directory file) w in
                (match r with
                 | Ok _ => (Ok tt, [Log ("   Removed: " ++ file)])
                 | Throw e => (Throw e, [])
                 end, w1)).
  { intros file w. unfold plain, io_bind, acting, log, lift, console.
    now destruct (unlinkSync (path_join directory file) w) as [[[] | e] w1]. }
  clearbody observed plain.
  induction tgzFiles as [| file rest IH]; intros w j;
    cbn [forEach map unlinkedUntilThrow].
  - exists (Ok tt), [], w, []. rewrite journal_unchanged.
    repeat split.
  - unfold io_bind. rewrite Hobserved, Hplain.
    destruct (unlinkSync (path_join directory file) w) as [[[] | e] w1].
    + destruct (IH w1 {| unlinked := (unlinked j ++ [path_join directory file])%list;
                         executed := executed j |})
        as (r & out & w' & done & Hrest & Hrun & Hcalls).
      rewrite Hrest, Hrun, Hcalls. cbn [unlinked executed app].
      exists r, (Log ("   Removed: " ++ file) :: out), w',
        (path_join directory file :: done).
      repeat split. rewrite <- app_assoc. reflexivity.
    + exists (Throw e), [], w1, [path_join directory file].
      repeat split.
Qed.

(** [removeTarballs] on the machine with a journal. *)
Lemma removeTarballs_observed directory w j :
  exists out w' done,
    observedRemoveTarballs World readdirSync unlinkSync directory (w, j)
    = ((Ok tt, out),
       (w', {| unlinked := (unlinked j ++ done)%list;
               executed := executed j |}))
    /\ removeTarballs World readdirSync unlinkSync directory w
       = ((Ok tt, out), w')
    /\ (done, w')
       = match readdirSync directory w with
         | Ok files =>
             unlinkedUntilThrow World unlinkSync
               (map (path_join directory) (filter isTarball files)) w
         | Throw _ => ([], w)
         end.
Proof.
  destruct (readdirSync directory w) as [files | e] eqn:Hlist.
  - destruct (unlinkEach directory (filter isTarball files) w j)
      as (r & out & w' & done & Hloop & Hplain & Hcalls).
    assert (Hobserved :
              observedReaddir World readdirSync directory (w, j) = Ok files)
      by exact Hlist.
    unfold observedRemoveTarballs, removeTarballs, io_tryCatch.
    rewrite (io_bind_reading _ _ _ _ Hobserved).
    rewrite (io_bind_reading _ _ _ _ Hlist).
    cbv beta zeta.
    destruct (0 <? List.length (filter isTarball files))%nat eqn:Hsome.
    + rewrite !io_bind_log. rewrite Hloop, Hplain, Hcalls.
      destruct r as [[] | e].
      * do 3 eexists. repeat split.
      * unfold logWarn, lift, console. do 3 eexists. repeat split.
    + unfold log, lift, console.
      exists [Log "🧹 No existing .tgz files to remove"], w, [].
      rewrite journal_unchanged. repeat split.
      destruct (filter isTarball files); [reflexivity | discriminate].
  - assert (Hobserved :
              observedReaddir World readdirSync directory (w, j) = Throw e)
      by exact Hlist.
    unfold observedRemoveTarballs, removeTarballs, io_tryCatch.
    rewrite (io_bind_reading_throws _ _ _ _ Hobserved).
    rewrite (io_bind_reading_throws _ _ _ _ Hlist).
    unfold logWarn, lift, console.
    exists [Warn ("Warning: Could not remove .tgz files: " ++ e)], w, [].
    rewrite journal_unchanged. repeat split.
Qed.

(** X16: [removeTarballs] does not throw and runs no command. It calls
    [unlinkSync] on the [.tgz] files the listing of the directory returns,
    in the order of the listing, each call on the machine the call before
    left, up to and with the first call that throws, and on nothing else;
    when the listing throws it calls it on nothing and leaves the machine
    as it is. *)
Theorem removeTarballs_unlinks_only_tarballs directory w :
  exists out w' j,
    observedRemoveTarballs World readdirSync unlinkSync directory (w, noJournal)
    = ((Ok tt, out), (w', j))
    /\ executed j = []
    /\ (unlinked j, w')
       = match readdirSync directory w with
         | Ok files =>
             unlinkedUntilThrow World unlinkSync
               (map (path_join directory) (filter isTarball files)) w
         | Throw _ => ([], w)
         end.
Proof.
  destruct (removeTarballs_observed directory w noJournal)
    as (out & w' & done & Hrun & _ & Hdone).
  do 3 eexists. split; [exact Hrun |]. split; [reflexivity | exact Hdone].
Qed.

(** X18: [packCommand] turns down a path that does not exist, a path whose
    [statSync] throws and a path that is not a directory with one error
    line, and leaves the machine as it is: nothing is deleted and no command
    is run. *)
Theorem packCommand_validates directory w :
  let dir := orDefault directory "." in
  let run :=
    packCommand World existsSync statSync readdirSync unlinkSync execSync
                path_resolve path_basename directory w in
  (existsSync dir w = false ->
   run = ((Ok false,
           [Error ("Error: Directory '" ++ dir ++ "' does not exist")]), w))
  /\ (forall e,
         existsSync dir w = true -> statSync dir w = Throw e ->
         run = ((Ok false, [Error ("Error: " ++ e)]), w))
  /\ (forall stats,
         existsSync dir w = true -> statSync dir w = Ok stats ->
         stats_isDirectory stats = false ->
         run = ((Ok false, [Error ("Error: '" ++ dir ++ "' is not a directory")]),
                w)).
Proof.
  intros dir run. subst run. unfold packCommand. cbv zeta. fold dir.
  cbv [io_tryCatch io_bind lift log logError io_ret console ret reading].
  repeat split.
  - intros ->. reflexivity.
  - intros e Hexists Hstat. rewrite Hexists. cbn [negb]. cbv beta iota zeta.
    rewrite Hstat. reflexivity.
  - intros stats Hexists Hstat Hfile. rewrite Hexists. cbn [negb].
    cbv beta iota zeta. rewrite Hstat. cbv beta iota zeta.
    rewrite Hfile. reflexivity.
Qed.

Lemma executeCommand_observed command directory w j :
  exists r w',
    executeCommand (Observed World) (observedExec World execSync)
                   command directory (w, j)
    = ((Ok r, [Log ("⚡ Running: " ++ command)]),
       (w', {| unlinked := unlinked j;
               executed := (executed j ++ [command])%list |}))
    /\ (success r = true
        <-> exists stdout,
            fst (execSync command (Some directory) w) = Exited stdout).
Proof.
  unfold executeCommand, io_bind, log, lift, console, observedExec.
  cbn [fst snd].
  destruct (execSync command (Some directory) w) as [[stdout | stdout message] w'];
    cbn [fst]; eexists; eexists; (split; [reflexivity |]); cbn [success].
  - split; eauto.
  - split; [discriminate | intros [s Hs]; discriminate].
Qed.

Lemma copyToClipboard_observed text w j :
  exists copied out w',
    copyToClipboard (Observed World) (observedExec World execSync) text (w, j)
    = ((Ok copied, out),
       (w', {| unlinked := unlinked j;
               executed := (executed j ++ [pbcopy text])%list |})).
Proof.
  unfold copyToClipboard, observedExec. cbn [fst snd].
  destruct (execSync (pbcopy text) None w) as [[stdout | stdout message] w'];
    do 3 eexists; reflexivity.
Qed.

Lemma findLatestTarball_observed directory w j :
  exists found out,
    findLatestTarball (Observed World) (observedStat World statSync)
                      (observedReaddir World readdirSync) directory (w, j)
    = ((Ok found, out), (w, j)).
Proof.
  destruct (findLatestTarball_reads (Observed World)
              (observedStat World statSync)
              (observedReaddir World readdirSync) directory (w, j))
    as (found & out & Hrun & _).
  eauto.
Qed.

(** X21: [packCommand] does not throw. It runs [pnpm run build], then
    [pnpm pack], then the copy to the clipboard, each only after the one
    before, and no other command. When it returns [true] all three were run
    and the console ends with the success line; when it returns [false] the
    console ends with an error line. *)
Theorem packCommand_runs_in_order directory w :
  exists b out w' j,
    observedPackCommand World existsSync statSync readdirSync unlinkSync
      execSync path_resolve path_basename directory (w, noJournal)
    = ((Ok b, out), (w', j))
    /\ (executed j = []
        \/ executed j = ["pnpm run build"]
        \/ executed j = ["pnpm run build"; "pnpm pack"]
        \/ exists tarballPath,
             executed j = ["pnpm run build"; "pnpm pack"; pbcopy tarballPath])
    /\ if b
       then (exists tarballPath,
                executed j
                = ["pnpm run build"; "pnpm pack"; pbcopy tarballPath])
            /\ endsWithLines out
                 [Log "🎉 Pack command completed successfully!"]
       else exists line, endsWithLines out [Error line].
Proof.
  unfold observedPackCommand, packCommand. cbv zeta.
  set (dir := orDefault directory ".").
  set (absolutePath := path_resolve dir).
  cbv [io_tryCatch io_bind lift log logError io_ret console ret reading].
  unfold observedExists at 1. cbn [fst].
  destruct (existsSync dir w); cbn [negb]; cbv beta iota zeta.
  2: { do 4 eexists. split; [reflexivity |]. split; [now left |].
       eexists. ends_with_tail. }
  unfold observedStat at 1. cbn [fst].
  destruct (statSync dir w) as [stats | e]; cbv beta iota zeta.
  2: { do 4 eexists. split; [reflexivity |]. split; [now left |].
       eexists. ends_with_tail. }
  destruct (stats_isDirectory stats); cbn [negb]; cbv beta iota zeta.
  2: { do 4 eexists. split; [reflexivity |]. split; [now left |].
       eexists. ends_with_tail. }
  destruct (removeTarballs_observed absolutePath w noJournal)
    as (out0 & w1 & done & Hremove & _).
  unfold observedRemoveTarballs in Hremove. rewrite Hremove.
  cbv beta iota zeta.
  destruct (executeCommand_observed "pnpm run build" absolutePath w1
              {| unlinked := (unlinked noJournal ++ done)%list;
                 executed := executed noJournal |})
    as (build & w2 & Hbuild & _).
  rewrite Hbuild. cbv beta iota zeta. cbn [unlinked executed noJournal app].
  destruct (success build); cbn [negb]; cbv beta iota zeta.
  2: { do 4 eexists. split; [reflexivity |]. cbn [executed].
       split; [right; now left |]. eexists. ends_with_tail. }
  destruct (executeCommand_observed "pnpm pack" absolutePath w2
              {| unlinked := done; executed := ["pnpm run build"] |})
    as (pack & w3 & Hpack & _).
  rewrite Hpack. cbv beta iota zeta. cbn [unlinked executed app].
  destruct (success pack); cbn [negb]; cbv beta iota zeta.
  2: { do 4 eexists. split; [reflexivity |]. cbn [executed].
       split; [right; right; now left |]. eexists. ends_with_tail. }
  destruct (findLatestTarball_observed absolutePath w3
              {| unlinked := done;
                 executed := ["pnpm run build"; "pnpm pack"] |})
    as (found & out3 & Hfind).
  rewrite Hfind. cbv beta iota zeta.
  destruct found as [tarballPath |]; cbv beta iota zeta.
  2: { do 4 eexists. split; [reflexivity |]. cbn [executed].
       split; [right; right; now left |]. eexists. ends_with_tail. }
  destruct (copyToClipboard_observed tarballPath w3
              {| unlinked := done;
                 executed := ["pnpm run build"; "pnpm pack"] |})
    as (copied & out4 & w4 & Hcopy).
  rewrite Hcopy. cbv beta iota zeta. cbn [unlinked executed app].
  destruct copied; cbv beta iota zeta;
    (do 4 eexists; split; [reflexivity |]; cbn [executed];
     split; [right; right; right; eexists; reflexivity |];
     split; [eexists; reflexivity | ends_with_tail]).
Qed.

(** X17: when the build fails on the machine [removeTarballs] leaves,
    [packCommand] returns [false] after the two lines of the failure, the
    second one being the message of the failure when it has one; [pnpm pack]
    is not run and the clipboard is not touched, and the machine is left as
    the build left it. *)
Theorem packCommand_stops_at_a_failed_build
    directory w stats out0 w1 stdout message w2 :
  let dir := orDefault directory "." in
  let absolutePath := path_resolve dir in
  existsSync dir w = true ->
  statSync dir w = Ok stats ->
  stats_isDirectory stats = true ->
  removeTarballs World readdirSync unlinkSync absolutePath w
  = ((Ok tt, out0), w1) ->
  execSync "pnpm run build" (Some absolutePath) w1
  = (Failed stdout message, w2) ->
  exists out j,
    observedPackCommand World existsSync statSync readdirSync unlinkSync
      execSync path_resolve path_basename directory (w, noJournal)
    = ((Ok false, out), (w2, j))
    /\ executed j = ["pnpm run build"]
    /\ exists line,
         endsWithLines out [Error "❌ Build failed:"; Error line]
         /\ (message <> "" -> line = message).
Proof.
  intros dir absolutePath Hexists Hstat Hisdir Hremoved Hbuild.
  unfold observedPackCommand, packCommand. cbv zeta. fold dir.
  fold absolutePath.
  cbv [io_tryCatch io_bind lift log logError io_ret console ret reading].
  unfold observedExists at 1. cbn [fst]. rewrite Hexists. cbn [negb].
  cbv beta iota zeta.
  unfold observedStat at 1. cbn [fst]. rewrite Hstat. cbv beta iota zeta.
  rewrite Hisdir. cbn [negb]. cbv beta iota zeta.
  destruct (removeTarballs_observed absolutePath w noJournal)
    as (out0' & w1' & done & Hremove & Hplain & _).
  rewrite Hremoved in Hplain. injection Hplain as <- <-.
  unfold observedRemoveTarballs in Hremove. rewrite Hremove.
  cbv beta iota zeta.
  unfold executeCommand, io_bind, log, lift, console, observedExec.
  cbn [fst snd]. rewrite Hbuild. cbv beta iota zeta.
  cbn [success negb unlinked executed noJournal app].
  do 2 eexists. split; [reflexivity |]. cbn [executed].
  split; [reflexivity |]. eexists. split; [ends_with_tail |].
  intros Hmessage. unfold errorOrOutput. cbn [error truthy orDefault].
  destruct (String.eqb_spec message ""); [contradiction | reflexivity].
Qed.

End AnyMachine.

(** Where the second of three tarballs cannot be deleted, the first one is
    deleted, the second one is tried, and the third one is left. *)
Example removeTarballs_stops_at_the_throw :
  observedRemoveTarballs (list string) demoReaddir guardedUnlink "/proj"
    (threeTarballs, noJournal)
  = ((Ok tt,
      [Log "🧹 Removing 3 existing .tgz file(s)...";
       Log "   Removed: a.tgz";
       Warn "Warning: Could not remove .tgz files: EPERM: operation not permitted"]),
     (["b.tgz"; "notes"; "c.tgz"],
      {| unlinked := ["/proj/a.tgz"; "/proj/b.tgz"]; executed := [] |})).
Proof. reflexivity. Qed.

Lemma packCommand_stops_at_a_failed_build_witness :
  exists out j,
    observedPackCommand (list string) (fun _ _ => true) demoStat demoReaddir
      demoUnlink brokenBuild (fun _ => "/proj") basename None
      (demoFiles, noJournal)
    = ((Ok false, out), (["package.json"; "src"], j))
    /\ executed j = ["pnpm run build"]
    /\ exists line,
         endsWithLines out [Error "❌ Build failed:"; Error line]
         /\ ("Command failed: pnpm run build" <> "" ->
             line = "Command failed: pnpm run build").
Proof.
  apply (packCommand_stops_at_a_failed_build (list string) (fun _ _ => true)
           demoStat demoReaddir demoUnlink brokenBuild (fun _ => "/proj")
           basename None demoFiles
           {| stats_isDirectory := true; mtime := 0 |}
           [Log "🧹 Removing 1 existing .tgz file(s)...";
            Log "   Removed: old.tgz"]
           ["package.json"; "src"]
           (Some "") "Command failed: pnpm run build"
           ["package.json"; "src"]
           eq_refl eq_refl eq_refl eq_refl eq_refl).
Defined.

(** The run of the witness: the old tarball is deleted, the build fails,
    and nothing else is run. *)
Example failed_build_on_demo :
  observedPackCommand (list string) (fun _ _ => true) demoStat demoReaddir
    demoUnlink brokenBuild (fun _ => "/proj") basename None
    (demoFiles, noJournal)
  = ((Ok false,
      [Log "📦 Building and packing in: /proj"; Log "";
       Log "🧹 Removing 1 existing .tgz file(s)..."; Log "   Removed: old.tgz";
       Log ""; Log "🔨 Building project..."; Log "⚡ Running: pnpm run build";
       Error "❌ Build failed:"; Error "Command failed: pnpm run build"]),
     (["package.json"; "src"],
      {| unlinked := ["/proj/old.tgz"]; executed := ["pnpm run build"] |})).
Proof. reflexivity. Qed.

Lemma packCommand_validates_witness :
  packCommand (list string) nothingExists demoStat demoReaddir demoUnlink
              demoExec (fun _ => "/proj") basename (Some "/missing") demoFiles
  = ((Ok false, [Error "Error: Directory '/missing' does not exist"]),
     demoFiles).
Proof.
  apply (proj1 (packCommand_validates (list string) nothingExists demoStat
                  demoReaddir demoUnlink demoExec (fun _ => "/proj") basename
                  (Some "/missing") demoFiles)).
  reflexivity.
Defined.

End PackRunCoverage.

(** ** Entries the walkers pass over, and the indentation of the output *)

Module WalkCoverage.
Import DirectorySizes ExecCommand Walk Dispatch ReportFacts ExecFacts.

(** X22: an entry that cannot be stat'ed does not stop the walker of the
    size report: the nodes returned are those returned without the
    entry. *)
Theorem walker_passes_over_unstatable_entries
    dirPath prefix before item message after maxDepth topCount :
  fst (listDirectoryContents dirPath prefix
         (Dir (before ++ (item, StatFails message) :: after))
         maxDepth 0 topCount)
  = fst (listDirectoryContents dirPath prefix (Dir (before ++ after))
           maxDepth 0 topCount).
Proof.
  rewrite !listDirectoryContents_top, !discovered_Dir.
  destruct (0 >? maxDepth); [reflexivity |].
  rewrite !flat_map_app. reflexivity.
Qed.

(** X23: [getSubdirectories] passes over an entry that cannot be stat'ed,
    and over a directory with a deny-listed name together with everything
    below it: the paths returned are those returned without the entry. *)
Theorem getSubdirectories_passes_over_entries
    dirPath before item stats after maxDepth currentDepth :
  (exists message, stats = StatFails message)
  \/ includes skipDirs item = true ->
  fst (getSubdirectories dirPath (Dir (before ++ (item, stats) :: after))
         maxDepth currentDepth)
  = fst (getSubdirectories dirPath (Dir (before ++ after))
           maxDepth currentDepth).
Proof.
  intros Hentry. rewrite !getSubdirectories_qualifying, !qualifying_Dir.
  destruct (currentDepth >? maxDepth); [reflexivity |].
  rewrite !flat_map_app. f_equal. cbn [flat_map].
  replace (qualifyingItem
             (fun itemPath stats0 =>
                qualifying itemPath stats0 maxDepth (currentDepth + 1))
             dirPath (item, stats)) with (@nil string); [reflexivity |].
  unfold qualifyingItem. destruct Hentry as [[message ->] | Hskip].
  - reflexivity.
  - rewrite Hskip. now destruct stats.
Qed.

Lemma getSubdirectories_passes_over_entries_witness :
  fst (getSubdirectories "/r"
         (Dir ([("x", Dir [])]
               ++ ("node_modules", Dir [("m", Dir [])]) :: [("y", Dir [])]))
         2 0)
  = ["/r/x"; "/r/y"].
Proof.
  apply (getSubdirectories_passes_over_entries "/r" [("x", Dir [])]
           "node_modules" (Dir [("m", Dir [])]) [("y", Dir [])] 2 0).
  right. reflexivity.
Defined.

Lemma split_parts_have_no_separator c s :
  Forall (fun part => split c part = [part]) (split c s).
Proof.
  induction s as [| d s IH]; cbn [split].
  - repeat constructor.
  - destruct (Ascii.eqb d c) eqn:Hd.
    + constructor; [reflexivity | exact IH].
    + destruct (split c s) as [| part parts]; [repeat constructor; cbn;
                                                rewrite Hd; reflexivity |].
      apply Forall_cons_iff in IH as [Hpart Hparts].
      constructor; [| exact Hparts].
      cbn [split]. rewrite Hd, Hpart. reflexivity.
Qed.

Lemma split_nonempty c s : split c s <> [].
Proof.
  destruct s as [| d s]; cbn [split]; [discriminate |].
  destruct (Ascii.eqb d c); [discriminate |].
  destruct (split c s); discriminate.
Qed.

Lemma split_append c part rest :
  split c part = [part] ->
  split c (part ++ String c rest) = part :: split c rest.
Proof.
  induction part as [| d part IH]; cbn [append split].
  - rewrite Ascii.eqb_refl. reflexivity.
  - destruct (Ascii.eqb d c) eqn:Hd; [discriminate |].
    pose proof (split_nonempty c part) as Hne.
    destruct (split c part) as [| p ps] eqn:Hsplit; [congruence |].
    intros Heq. injection Heq as Hp Hps. subst p ps.
    rewrite IH by reflexivity. reflexivity.
Qed.

(** Joining parts without a separator and splitting again gives the parts
    back. *)
Lemma split_concat c parts :
  parts <> [] ->
  Forall (fun part => split c part = [part]) parts ->
  split c (String.concat (String c "") parts) = parts.
Proof.
  intros Hparts Hall. induction Hall as [| part parts Hpart Hall IH];
    [congruence |].
  destruct parts as [| next parts].
  - cbn [concat]. exact Hpart.
  - cbn [concat]. cbn [append].
    rewrite split_append by exact Hpart.
    f_equal. apply IH. discriminate.
Qed.

(** X24: the indentation of an output keeps its lines: the indented text
    has the lines of the output, each behind three spaces. *)
Theorem indentOutput_keeps_the_lines output :
  split "010"%char (indentOutput output)
  = map (fun line => "   " ++ line) (split "010"%char output).
Proof.
  unfold indentOutput, nl. apply split_concat.
  - pose proof (split_nonempty "010"%char output) as Hne.
    destruct (split "010"%char output); [congruence | discriminate].
  - pose proof (split_parts_have_no_separator "010"%char output) as Hparts.
    rewrite Forall_forall in *. intros line Hin.
    apply in_map_iff in Hin as (part & <- & Hpart).
    cbn [append split]. cbn. rewrite (Hparts _ Hpart). reflexivity.
Qed.

End WalkCoverage.
